(** * Zubix pod backend: the realtime gateway and the room history route

    A shallow embedding of the Socket.IO gateway (the [setupSocketIO]
    handlers) and of the [GET /:roomId/messages] route of
    [routes/rooms.ts], with the properties of the design document
    proved or refuted on it.

    Conventions.
    - A JavaScript string is its sequence of UTF-16 code units.
    - The Prisma store is a record of finite maps and sets; a call that
      rejects is the [Throw] result, which the handlers' [catch] blocks
      turn into the generic failure event.
    - A handler is a function from the gateway state to the new state and
      the list of emissions it performs, in program order.  The transport
      state of a connection is only touched in synchronous stretches of
      the handlers, so one handler run is one step. *)

From Stdlib Require Import Strings.Ascii.
From stdpp Require Import base numbers strings list sorting gmap.

Local Open Scope Z_scope.

(** ** Strings *)

Abbreviation Str := (list N).

(** A literal of the source, as code units. *)
Definition js (s : string) : Str := N_of_ascii <$> String.list_ascii_of_string s.

(** [WhiteSpace] and [LineTerminator] code units, the characters that
    [String.prototype.trim] and [parseInt] strip. *)
Definition is_white_space (c : N) : bool :=
  existsb (N.eqb c)
    [9; 10; 11; 12; 13; 32; 160; 5760; 8232; 8233; 8239; 8287; 12288; 65279]%N
  || ((8192 <=? c)%N && (c <=? 8202)%N).

Fixpoint trimStart (s : Str) : Str :=
  match s with
  | c :: s' => if is_white_space c then trimStart s' else s
  | [] => []
  end.

Definition trimEnd (s : Str) : Str := reverse (trimStart (reverse s)).

Definition trim (s : Str) : Str := trimEnd (trimStart s).

(** JavaScript truthiness of a string: the empty string is falsy. *)
Definition truthy (s : Str) : bool :=
  match s with [] => false | _ => true end.

(** *** [parseInt] without a radix

    [None] is [NaN].  The value is exact; the rounding of magnitudes
    above 2^53 is not modelled. *)

Definition digit_value (radix : Z) (c : N) : option Z :=
  let v :=
    if ((48 <=? c) && (c <=? 57))%N then Some (Z.of_N c - 48)
    else if ((97 <=? c) && (c <=? 122))%N then Some (Z.of_N c - 87)
    else if ((65 <=? c) && (c <=? 90))%N then Some (Z.of_N c - 55)
    else None in
  match v with
  | Some d => if d <? radix then Some d else None
  | None => None
  end.

(** The longest prefix of digits, folded to its value; [None] when the
    prefix is empty. *)
Fixpoint parse_digits (radix : Z) (acc : option Z) (s : Str) : option Z :=
  match s with
  | c :: s' =>
      match digit_value radix c with
      | Some d => parse_digits radix (Some (default 0 acc * radix + d)) s'
      | None => acc
      end
  | [] => acc
  end.

Definition parseInt (input : Str) : option Z :=
  let s := trimStart input in
  let '(sign, s) :=
    match s with
    | 45%N :: s' => (-1, s')
    | 43%N :: s' => (1, s')
    | _ => (1, s)
    end in
  let '(radix, s) :=
    match s with
    | 48%N :: 120%N :: s' => (16, s')
    | 48%N :: 88%N :: s' => (16, s')
    | _ => (10, s)
    end in
  (λ v, sign * v) <$> parse_digits radix None s.

(** ** The store *)

Inductive Result (A : Type) : Type :=
  | Ok (a : A)
  | Throw.
Arguments Ok {A} a.
Arguments Throw {A}.

Record UserRow := {
  user_username : Str;
  user_fullName : option Str;
  user_email : option Str;
  user_mobile : option Str;
  user_role : Str;
  user_profilePhoto : option Str;
  user_avatar : option Str;
  user_createdAt : Z;
}.

Record PodRow := { pod_ownerId : Str }.

Record RoomRow := { room_podId : Str }.

Record ChatRow := { chat_updatedAt : Z }.

(** A message row; the primary key is the key of the table. *)
Record MessageRow := {
  content : Str;
  roomId : option Str;
  chatId : option Str;
  senderId : Str;
  createdAt : Z;
}.

Abbreviation Message := (Str * MessageRow)%type.

Record Db := {
  db_users : gmap Str UserRow;
  db_pods : gmap Str PodRow;
  db_podMembers : gset (Str * Str);
  db_rooms : gmap Str RoomRow;
  db_chats : gmap Str ChatRow;
  db_chatParticipants : gset (Str * Str);
  db_messages : gmap Str MessageRow;
}.

(** The [pod: { select: { id, ownerId } }] projection. *)
Record PodView := { pod_id : Str; ownerId : Str }.

(** [prisma.room.findUnique({ where: { id }, include: { pod } })].
    The relation is required: a room whose pod row is gone makes the
    query reject. *)
Definition room_findUnique (d : Db) (id : Str) : Result (option (RoomRow * PodView)) :=
  match db_rooms d !! id with
  | None => Ok None
  | Some r =>
      match db_pods d !! room_podId r with
      | Some p => Ok (Some (r, {| pod_id := room_podId r; ownerId := pod_ownerId p |}))
      | None => Throw
      end
  end.

(** [prisma.podMember.findUnique({ where: { podId_userId } })], as the
    truthiness of its result. *)
Definition podMember_findUnique (d : Db) (podId userId : Str) : bool :=
  bool_decide ((podId, userId) ∈ db_podMembers d).

(** [prisma.chatParticipant.findUnique({ where: { chatId_userId } })]. *)
Definition chatParticipant_findUnique (d : Db) (chatId userId : Str) : bool :=
  bool_decide ((chatId, userId) ∈ db_chatParticipants d).

(** [prisma.message.findUnique({ where: { id }, select: { createdAt } })]. *)
Definition message_findUnique (d : Db) (id : Str) : option Z :=
  createdAt <$> db_messages d !! id.

(** ** History pagination: [GET /:roomId/messages] *)

(** A value of [req.query]: absent, a string, or an array or object. *)
Inductive QueryValue :=
  | QAbsent
  | QString (s : Str)
  | QOther.

Inductive Response :=
  | Json200 (messages : list Message)
  | Json404 (error : Str)
  | Json403 (error : Str)
  | Json500 (error : Str).

(** [orderBy: { createdAt: 'desc' }]. *)
Definition newer_first (a b : Message) : Prop := createdAt b.2 ≤ createdAt a.2.

Global Instance newer_first_dec : RelDecision newer_first.
Proof. intros a b. unfold newer_first. apply _. Defined.

(** The [where] clause: [roomId], and [createdAt: { lt }] when set. *)
Definition where_matches (rid : Str) (lt : option Z) (m : Message) : bool :=
  bool_decide (roomId m.2 = Some rid)
  && match lt with
     | Some t => bool_decide (createdAt m.2 < t)
     | None => true
     end.

(** [take]: the first [n] rows of the ordering, or for a negative [n]
    the last [-n] of them.  This is [take] for a value in the signed
    32-bit range; what the query engine does with a larger value is not
    described by the model, and the properties that speak of every limit
    are stated for limits below 2^31. *)
Definition prisma_take {A} (n : Z) (l : list A) : list A :=
  if 0 <=? n then take (Z.to_nat n) l
  else drop (length l - Z.to_nat (- n))%nat l.

(** [prisma.message.findMany({ where, orderBy, take })]; a [take] that is
    not a number is rejected. *)
Definition message_findMany (d : Db) (rid : Str) (lt : option Z) (n : option Z)
    : Result (list Message) :=
  match n with
  | None => Throw
  | Some n =>
      Ok (prisma_take n
            (merge_sort newer_first
               (filter (λ m, where_matches rid lt m = true) (map_to_list (db_messages d)))))
  end.

(** The route, for the user [authMiddleware] resolved.  The rows are
    answered without the profile projection that the [include] adds to
    each of them. *)
Definition get_room_messages (d : Db) (userId : Str) (rid : Str)
    (limit before : QueryValue) : Response :=
  let limit := match limit with QAbsent => QString (js "50") | v => v end in
  match room_findUnique d rid with
  | Throw => Json500 (js "Failed to fetch messages")
  | Ok None => Json404 (js "Room not found")
  | Ok (Some (room, pod)) =>
      let isMember := podMember_findUnique d (pod_id pod) userId in
      let isOwner := bool_decide (ownerId pod = userId) in
      if negb isMember && negb isOwner
      then Json403 (js "You must be a member of this pod to view messages")
      else
        let lt :=
          match before with
          | QString b => if truthy b then message_findUnique d b else None
          | _ => None
          end in
        let n := parseInt (match limit with QString s => s | _ => js "50" end) in
        match message_findMany d rid lt n with
        | Throw => Json500 (js "Failed to fetch messages")
        | Ok messages => Json200 (reverse messages)
        end
  end.

(** ** The gateway *)

(** The identity snapshot attached to a socket at the handshake. *)
Record SocketUser := {
  su_id : Str;
  su_username : Str;
  su_role : Str;
  su_fullName : option Str;
  su_avatar : option Str;
}.

(** A live socket: [socket.user], the transport channels it has joined
    ([socket.rooms]) and [socket.currentRoom]. *)
Record Conn := {
  user : SocketUser;
  rooms : gset Str;
  currentRoom : option Str;
}.

Record State := {
  db : Db;
  sockets : gmap Str Conn;
}.

(** What the environment supplies to one handler run: the clock, and the
    primary key the store generates for a new row. *)
Record Env := { now : Z; fresh_id : Str }.

(** Payload projections. *)
Record PresenceUser := {
  pu_id : Str; pu_username : Str; pu_fullName : option Str; pu_avatar : option Str;
}.

Record UserRef := { ref_id : Str; ref_username : Str }.

Record RoomSender := {
  rs_id : Str; rs_username : Str; rs_fullName : option Str; rs_email : option Str;
  rs_mobile : option Str; rs_role : Str; rs_profilePhoto : option Str; rs_createdAt : Z;
}.

Record DmSender := {
  ds_id : Str; ds_username : Str; ds_fullName : option Str; ds_avatar : option Str;
}.

Inductive ServerEvent :=
  | error (message : Str)
  | user_joined (u : PresenceUser) (timestamp : Z)
  | room_joined (rid : Str) (message : Str)
  | user_left (u : UserRef) (timestamp : Z)
  | room_left (rid : Str) (message : Str)
  | new_message (m : Message) (sender : RoomSender)
  | user_typing (u : UserRef) (rid : Str)
  | user_stopped_typing (u : UserRef) (rid : Str)
  | chat_joined (cid : Str) (message : Str)
  | new_dm (m : Message) (sender : DmSender)
  | dm_user_typing (u : UserRef) (cid : Str)
  | dm_user_stopped_typing (u : UserRef) (cid : Str)
  | notifications_joined (message : Str).

(** The three ways a handler emits: [socket.emit], [socket.to(ch).emit]
    and [io.to(ch).emit]. *)
Inductive Emission :=
  | socket_emit (sid : Str) (ev : ServerEvent)
  | socket_to (sid : Str) (channel : Str) (ev : ServerEvent)
  | io_to (channel : Str) (ev : ServerEvent).

Global Instance UserRef_eq_dec : EqDecision UserRef.
Proof. solve_decision. Defined.
Global Instance PresenceUser_eq_dec : EqDecision PresenceUser.
Proof. solve_decision. Defined.
Global Instance RoomSender_eq_dec : EqDecision RoomSender.
Proof. solve_decision. Defined.
Global Instance DmSender_eq_dec : EqDecision DmSender.
Proof. solve_decision. Defined.
Global Instance MessageRow_eq_dec : EqDecision MessageRow.
Proof. solve_decision. Defined.
Global Instance ServerEvent_eq_dec : EqDecision ServerEvent.
Proof. solve_decision. Defined.
Global Instance Emission_eq_dec : EqDecision Emission.
Proof. solve_decision. Defined.

(** The sockets joined to a transport channel. *)
Definition joined (conns : gmap Str Conn) (channel : Str) : gset Str :=
  dom (filter (λ kc, channel ∈ rooms kc.2) conns).

(** The sockets an emission is delivered to. *)
Definition recipients (conns : gmap Str Conn) (e : Emission) : gset Str :=
  match e with
  | socket_emit sid _ => {[sid]}
  | socket_to sid channel _ => joined conns channel ∖ {[sid]}
  | io_to channel _ => joined conns channel
  end.

Definition chat_channel (cid : Str) : Str := js "chat:" ++ cid.
Definition user_channel (uid : Str) : Str := js "user:" ++ uid.

Definition set_socket (st : State) (sid : Str) (socket : Conn) : State :=
  {| db := db st; sockets := <[sid := socket]> (sockets st) |}.

Definition set_db (st : State) (d : Db) : State :=
  {| db := d; sockets := sockets st |}.

Definition socket_join (socket : Conn) (channel : Str) : Conn :=
  {| user := user socket; rooms := rooms socket ∪ {[channel]};
     currentRoom := currentRoom socket |}.

Definition socket_leave (socket : Conn) (channel : Str) : Conn :=
  {| user := user socket; rooms := rooms socket ∖ {[channel]};
     currentRoom := currentRoom socket |}.

Definition set_currentRoom (socket : Conn) (r : option Str) : Conn :=
  {| user := user socket; rooms := rooms socket; currentRoom := r |}.

Definition presence_user (u : SocketUser) : PresenceUser :=
  {| pu_id := su_id u; pu_username := su_username u;
     pu_fullName := su_fullName u; pu_avatar := su_avatar u |}.

Definition user_ref (u : SocketUser) : UserRef :=
  {| ref_id := su_id u; ref_username := su_username u |}.

(** *** Writes of the store *)

Record MessageData := {
  data_content : Str;
  data_roomId : option Str;
  data_chatId : option Str;
  data_senderId : Str;
}.

Definition references_ok {V} (table : gmap Str V) (ref : option Str) : bool :=
  match ref with
  | Some k => bool_decide (is_Some (table !! k))
  | None => true
  end.

(** The store with one more message row. *)
Definition insert_message (d : Db) (id : Str) (row : MessageRow) : Db :=
  {| db_users := db_users d; db_pods := db_pods d;
     db_podMembers := db_podMembers d; db_rooms := db_rooms d;
     db_chats := db_chats d; db_chatParticipants := db_chatParticipants d;
     db_messages := <[id := row]> (db_messages d) |}.

(** [prisma.message.create({ data, include: { sender } })]: one row is
    inserted under the generated key, stamped with the clock; the call
    rejects when a foreign key has no target or the key is taken.  The
    sender's row is returned for the [include]. *)
Definition message_create (env : Env) (d : Db) (data : MessageData)
    : Result (Db * Message * UserRow) :=
  match db_users d !! data_senderId data, db_messages d !! fresh_id env with
  | Some sender, None =>
      if references_ok (db_rooms d) (data_roomId data)
         && references_ok (db_chats d) (data_chatId data)
      then
        let row := {| content := data_content data; roomId := data_roomId data;
                      chatId := data_chatId data; senderId := data_senderId data;
                      createdAt := now env |} in
        Ok (insert_message d (fresh_id env) row, (fresh_id env, row), sender)
      else Throw
  | _, _ => Throw
  end.

(** The store with the last-activity time of a chat set. *)
Definition touch_chat (d : Db) (cid : Str) (t : Z) : Db :=
  {| db_users := db_users d; db_pods := db_pods d;
     db_podMembers := db_podMembers d; db_rooms := db_rooms d;
     db_chats := <[cid := {| chat_updatedAt := t |}]> (db_chats d);
     db_chatParticipants := db_chatParticipants d;
     db_messages := db_messages d |}.

(** [prisma.chat.update({ where: { id }, data: { updatedAt: new Date() } })]:
    rejects when the chat is absent. *)
Definition chat_update (env : Env) (d : Db) (cid : Str) : Result Db :=
  match db_chats d !! cid with
  | Some _ => Ok (touch_chat d cid (now env))
  | None => Throw
  end.

Definition room_sender (id : Str) (u : UserRow) : RoomSender :=
  {| rs_id := id; rs_username := user_username u; rs_fullName := user_fullName u;
     rs_email := user_email u; rs_mobile := user_mobile u; rs_role := user_role u;
     rs_profilePhoto := user_profilePhoto u; rs_createdAt := user_createdAt u |}.

Definition dm_sender (id : Str) (u : UserRow) : DmSender :=
  {| ds_id := id; ds_username := user_username u; ds_fullName := user_fullName u;
     ds_avatar := user_avatar u |}.

(** [!content || !content.trim()]. *)
Definition content_missing (c : Str) : bool :=
  negb (truthy c) || negb (truthy (trim c)).

(** *** The handlers *)

Section handlers.
Context (env : Env) (st : State) (sid : Str) (socket : Conn).

Let uid : Str := su_id (user socket).

Definition join_room (rid : Str) : State * list Emission :=
  match room_findUnique (db st) rid with
  | Throw => (st, [socket_emit sid (error (js "Failed to join room"))])
  | Ok None => (st, [socket_emit sid (error (js "Room not found"))])
  | Ok (Some (room, pod)) =>
      let isMember := podMember_findUnique (db st) (pod_id pod) uid in
      let isOwner := bool_decide (ownerId pod = uid) in
      if negb isMember && negb isOwner
      then (st, [socket_emit sid
                   (error (js "You must be a member of this pod to join this room"))])
      else
        (set_socket st sid (set_currentRoom (socket_join socket rid) (Some rid)),
         [socket_to sid rid (user_joined (presence_user (user socket)) (now env));
          socket_emit sid (room_joined rid (js "Successfully joined room"))])
  end.

Definition leave_room (rid : Str) : State * list Emission :=
  if bool_decide (currentRoom socket = Some rid)
  then
    (set_socket st sid (set_currentRoom (socket_leave socket rid) None),
     [socket_to sid rid (user_left (user_ref (user socket)) (now env));
      socket_emit sid (room_left rid (js "Successfully left room"))])
  else (st, []).

Definition send_message (rid : Str) (c : Str) : State * list Emission :=
  if content_missing c
  then (st, [socket_emit sid (error (js "Message content is required"))])
  else
    match room_findUnique (db st) rid with
    | Throw => (st, [socket_emit sid (error (js "Failed to send message"))])
    | Ok None => (st, [socket_emit sid (error (js "Room not found"))])
    | Ok (Some (room, pod)) =>
        let isMember := podMember_findUnique (db st) (pod_id pod) uid in
        let isOwner := bool_decide (ownerId pod = uid) in
        if negb isMember && negb isOwner
        then (st, [socket_emit sid
                     (error (js "You must be a member of this pod to send messages"))])
        else
          match message_create env (db st)
                  {| data_content := trim c; data_roomId := Some rid;
                     data_chatId := None; data_senderId := uid |} with
          | Throw => (st, [socket_emit sid (error (js "Failed to send message"))])
          | Ok (d, message, sender) =>
              (set_db st d,
               [io_to rid (new_message message (room_sender uid sender))])
          end
    end.

Definition typing_start (rid : Str) : State * list Emission :=
  if bool_decide (currentRoom socket = Some rid)
  then (st, [socket_to sid rid (user_typing (user_ref (user socket)) rid)])
  else (st, []).

Definition typing_stop (rid : Str) : State * list Emission :=
  if bool_decide (currentRoom socket = Some rid)
  then (st, [socket_to sid rid (user_stopped_typing (user_ref (user socket)) rid)])
  else (st, []).

Definition join_chat (cid : Str) : State * list Emission :=
  if negb (chatParticipant_findUnique (db st) cid uid)
  then (st, [socket_emit sid (error (js "You are not a participant of this chat"))])
  else
    (set_socket st sid (socket_join socket (chat_channel cid)),
     [socket_emit sid (chat_joined cid (js "Successfully joined chat"))]).

Definition leave_chat (cid : Str) : State * list Emission :=
  (set_socket st sid (socket_leave socket (chat_channel cid)), []).

Definition send_dm (cid : Str) (c : Str) : State * list Emission :=
  if content_missing c
  then (st, [socket_emit sid (error (js "Message content is required"))])
  else if negb (chatParticipant_findUnique (db st) cid uid)
  then (st, [socket_emit sid (error (js "You are not a participant of this chat"))])
  else
    match message_create env (db st)
            {| data_content := trim c; data_roomId := None;
               data_chatId := Some cid; data_senderId := uid |} with
    | Throw => (st, [socket_emit sid (error (js "Failed to send message"))])
    | Ok (d, message, sender) =>
        match chat_update env d cid with
        | Throw => (set_db st d, [socket_emit sid (error (js "Failed to send message"))])
        | Ok d' =>
            (set_db st d',
             [io_to (chat_channel cid) (new_dm message (dm_sender uid sender))])
        end
    end.

Definition dm_typing_start (cid : Str) : State * list Emission :=
  (st, [socket_to sid (chat_channel cid) (dm_user_typing (user_ref (user socket)) cid)]).

Definition dm_typing_stop (cid : Str) : State * list Emission :=
  (st, [socket_to sid (chat_channel cid)
          (dm_user_stopped_typing (user_ref (user socket)) cid)]).

Definition join_notifications : State * list Emission :=
  (set_socket st sid (socket_join socket (user_channel uid)),
   [socket_emit sid (notifications_joined (js "Successfully joined notifications"))]).

(** The [disconnect] handler runs when the transport has closed the
    socket; the transport then forgets the socket and its channels. *)
Definition disconnect : State * list Emission :=
  ({| db := db st; sockets := delete sid (sockets st) |},
   match currentRoom socket with
   | Some r =>
       if truthy r
       then [socket_to sid r (user_left (user_ref (user socket)) (now env))]
       else []
   | None => []
   end).
End handlers.

(** The transport accepts a socket into the channel of its own id; the
    [connection] handler adds the user's notification channel. *)
Definition connection (st : State) (sid : Str) (u : SocketUser) : State :=
  set_socket st sid
    (socket_join {| user := u; rooms := {[sid]}; currentRoom := None |}
       (user_channel (su_id u))).

Inductive ClientEvent :=
  | JoinRoom (rid : Str)
  | LeaveRoom (rid : Str)
  | SendMessage (rid : Str) (c : Str)
  | TypingStart (rid : Str)
  | TypingStop (rid : Str)
  | JoinChat (cid : Str)
  | LeaveChat (cid : Str)
  | SendDm (cid : Str) (c : Str)
  | DmTypingStart (cid : Str)
  | DmTypingStop (cid : Str)
  | JoinNotifications
  | Disconnect.

(** One event of socket [sid]; events of a socket the gateway does not
    hold do nothing. *)
Definition handle (env : Env) (st : State) (sid : Str) (ev : ClientEvent)
    : State * list Emission :=
  match sockets st !! sid with
  | None => (st, [])
  | Some socket =>
      match ev with
      | JoinRoom rid => join_room env st sid socket rid
      | LeaveRoom rid => leave_room env st sid socket rid
      | SendMessage rid c => send_message env st sid socket rid c
      | TypingStart rid => typing_start st sid socket rid
      | TypingStop rid => typing_stop st sid socket rid
      | JoinChat cid => join_chat st sid socket cid
      | LeaveChat cid => leave_chat st sid socket cid
      | SendDm cid c => send_dm env st sid socket cid c
      | DmTypingStart cid => dm_typing_start st sid socket cid
      | DmTypingStop cid => dm_typing_stop st sid socket cid
      | JoinNotifications => join_notifications st sid socket
      | Disconnect => disconnect env st sid socket
      end
  end.

(** ** Vocabulary of the design document *)

(** The design document's predicate [canAccessRoom(userId, roomId) =
    isPodOwner(pod, userId) OR isPodMember(pod, userId)], read on the
    tables of the store; [canAccessRoom_true] and [canAccessRoom_false]
    relate it to the gate the handlers compute. *)
Definition canAccessRoom (d : Db) (userId rid : Str) : bool :=
  match db_rooms d !! rid with
  | Some r =>
      match db_pods d !! room_podId r with
      | Some p =>
          bool_decide (pod_ownerId p = userId)
          || bool_decide ((room_podId r, userId) ∈ db_podMembers d)
      | None => false
      end
  | None => false
  end.

(** [canAccessChat(userId, chatId) = isParticipant(chat, userId)]. *)
Definition canAccessChat (d : Db) (userId cid : Str) : bool :=
  bool_decide ((cid, userId) ∈ db_chatParticipants d).

(** The error kinds of the error-handling design, and the kind of each
    message the handlers emit. *)
Inductive ErrorKind := NotFound | Unauthorized | Validation | Internal.

Global Instance ErrorKind_eq_dec : EqDecision ErrorKind.
Proof. solve_decision. Defined.

Definition error_kind (message : Str) : option ErrorKind :=
  if bool_decide (message = js "Room not found") then Some NotFound
  else if bool_decide (message ∈
            [js "You must be a member of this pod to join this room";
             js "You must be a member of this pod to send messages";
             js "You are not a participant of this chat"]) then Some Unauthorized
  else if bool_decide (message = js "Message content is required") then Some Validation
  else if bool_decide (message ∈
            [js "Failed to join room"; js "Failed to leave room";
             js "Failed to send message"; js "Failed to join chat"]) then Some Internal
  else None.

(** Content that is empty or made of white space only. *)
Definition whitespace_only (c : Str) : Prop := Forall (λ x, is_white_space x = true) c.

(** The messages of a room, in the order the table lists them. *)
Definition room_messages (d : Db) (rid : Str) : list Message :=
  filter (λ m, roomId m.2 = Some rid) (map_to_list (db_messages d)).

(** Creation-time order. *)
Definition older (a b : Message) : Prop := createdAt a.2 < createdAt b.2.

Global Instance older_dec : RelDecision older.
Proof. intros a b. unfold older. apply _. Defined.

(** The active room of every socket is a channel the socket has joined. *)
Definition active_room_joined (st : State) : Prop :=
  ∀ sid socket r,
    sockets st !! sid = Some socket → currentRoom socket = Some r → r ∈ rooms socket.

(** The same, as a check of one socket. *)
Definition active_room_ok (socket : Conn) : bool :=
  match currentRoom socket with
  | Some r => bool_decide (r ∈ rooms socket)
  | None => true
  end.

(** The operations of the room session manager, of the message pipeline
    and of the typing broadcaster, and the disconnect. *)
Definition session_operation (ev : ClientEvent) : bool :=
  match ev with
  | JoinRoom _ | LeaveRoom _ | SendMessage _ _ | SendDm _ _
  | TypingStart _ | TypingStop _ | DmTypingStart _ | DmTypingStop _
  | Disconnect => true
  | JoinChat _ | LeaveChat _ | JoinNotifications => false
  end.

(** ** A small world

    Pod [p1] is owned by [alice], [bob] is its member and [carol] is a
    stranger; room [r1] holds ten messages stamped 1 to 10; chat [c1] is
    between [alice] and [bob].  Each user has one socket, and [bob]'s has
    joined [r1]. *)
Module Sample.

Definition a_user (name : string) : UserRow :=
  {| user_username := js name; user_fullName := None; user_email := None;
     user_mobile := None; user_role := js "USER"; user_profilePhoto := None;
     user_avatar := None; user_createdAt := 0 |}.

Definition msg (id : string) (t : Z) : Message :=
  (js id, {| content := js id; roomId := Some (js "r1"); chatId := None;
             senderId := js "alice"; createdAt := t |}).

Definition m1 := msg "m01" 1.
Definition m2 := msg "m02" 2.
Definition m3 := msg "m03" 3.
Definition m4 := msg "m04" 4.
Definition m5 := msg "m05" 5.
Definition m6 := msg "m06" 6.
Definition m7 := msg "m07" 7.
Definition m8 := msg "m08" 8.
Definition m9 := msg "m09" 9.
Definition m10 := msg "m10" 10.

Definition dm0 : Message :=
  (js "d01", {| content := js "hi"; roomId := None; chatId := Some (js "c1");
                senderId := js "bob"; createdAt := 4 |}).

Definition store : Db :=
  {| db_users :=
       list_to_map [(js "alice", a_user "alice"); (js "bob", a_user "bob");
                    (js "carol", a_user "carol")];
     db_pods := {[ js "p1" := {| pod_ownerId := js "alice" |} ]};
     db_podMembers := {[ (js "p1", js "bob") ]};
     db_rooms := {[ js "r1" := {| room_podId := js "p1" |} ]};
     db_chats := {[ js "c1" := {| chat_updatedAt := 4 |} ]};
     db_chatParticipants := {[ (js "c1", js "alice"); (js "c1", js "bob") ]};
     db_messages :=
       list_to_map [m3; m1; dm0; m10; m2; m7; m5; m4; m9; m6; m8] |}.

Definition socket_of (sid name : string) (channels : list Str) : Conn :=
  {| user := {| su_id := js name; su_username := js name; su_role := js "USER";
                su_fullName := None; su_avatar := None |};
     rooms := list_to_set (js sid :: user_channel (js name) :: channels);
     currentRoom := None |}.

Definition alice : Conn := socket_of "s1" "alice" [].
Definition bob : Conn :=
  set_currentRoom (socket_of "s2" "bob" [js "r1"]) (Some (js "r1")).
Definition carol : Conn := socket_of "s3" "carol" [].

Definition world : State :=
  {| db := store;
     sockets := list_to_map [(js "s1", alice); (js "s2", bob); (js "s3", carol)] |}.

Definition env : Env := {| now := 11; fresh_id := js "m11" |}.

End Sample.

(** ** Cross-origin policy *)

(** [allowedOrigins] of the Socket.IO server. *)
Definition socket_allowedOrigins : list Str :=
  [js "http://localhost:8080"; js "http://localhost:5173"; js "http://localhost:5174";
   js "http://localhost:3000"; js "https://zoobalo.com"; js "https://www.zoobalo.com";
   js "https://podapi.zoobalo.com"; js "https://zubix-pod.vercel.app"].

(** [allowedOrigins] of the Express application. *)
Definition server_allowedOrigins : list Str :=
  [js "http://localhost:8080"; js "http://localhost:5173"; js "http://localhost:3000";
   js "https://zoobalo.com"; js "https://www.zoobalo.com";
   js "https://podapi.zoobalo.com"].

(** The [origin] callback that both servers install, over their own list:
    [None] is [callback(null, true)], [Some message] is the callback with
    an [Error] of that message.  The argument is [None] for a request
    without an origin. *)
Definition cors_origin (allowedOrigins : list Str) (origin : option Str) : option Str :=
  match origin with
  | None => None
  | Some o =>
      if negb (truthy o) then None
      else if bool_decide (o ∈ allowedOrigins) then None
      else Some (js "Not allowed by CORS: " ++ o)
  end.

(** ** Authentication *)

(** [req.user], the projection [authMiddleware] selects. *)
Record AuthenticatedUser := {
  au_id : Str;
  au_email : option Str;
  au_username : Str;
  au_role : Str;
  au_fullName : option Str;
  au_profilePhoto : option Str;
}.

(** What a middleware does: [next()] with the user attached, or a JSON
    error with a status. *)
Inductive AuthResult :=
  | next (user : AuthenticatedUser)
  | status_json (status : Z) (error : Str).

(** [s.startsWith(prefix)]. *)
Definition startsWith (s prefix : Str) : bool :=
  bool_decide (take (length prefix) s = prefix).

(** [s.substring(n)]. *)
Definition substring (s : Str) (n : nat) : Str := drop n s.

Definition socket_user (id : Str) (u : UserRow) : SocketUser :=
  {| su_id := id; su_username := user_username u; su_role := user_role u;
     su_fullName := user_fullName u; su_avatar := user_avatar u |}.

(** A complete reply of the history route: the middleware's refusal, or
    the answer of the handler. *)
Inductive RouteReply :=
  | Refused (status : Z) (error : Str)
  | Answered (r : Response).

Section authentication.
(** [verifyToken] of [utils/jwt], which is not part of the sources: the
    [userId] of the decoded token, or [None] for the null result. *)
Context (verifyToken : Str → option Str).

(** [authMiddleware] of [middleware/auth.ts], on the [Authorization]
    header. *)
Definition authMiddleware (d : Db) (authHeader : option Str) : AuthResult :=
  match authHeader with
  | None => status_json 401 (js "No token provided")
  | Some h =>
      if negb (truthy h) || negb (startsWith h (js "Bearer "))
      then status_json 401 (js "No token provided")
      else
        match verifyToken (substring h 7) with
        | None => status_json 401 (js "Invalid or expired token")
        | Some userId =>
            match db_users d !! userId with
            | None => status_json 401 (js "User not found")
            | Some u =>
                next {| au_id := userId; au_email := user_email u;
                        au_username := user_username u; au_role := user_role u;
                        au_fullName := user_fullName u;
                        au_profilePhoto := user_profilePhoto u |}
            end
        end
  end.

(** [router.get('/:roomId/messages', authMiddleware, ...)]. *)
Definition get_room_messages_route (d : Db) (authHeader : option Str) (rid : Str)
    (limit before : QueryValue) : RouteReply :=
  match authMiddleware d authHeader with
  | status_json status e => Refused status e
  | next u => Answered (get_room_messages d (au_id u) rid limit before)
  end.

(** The [io.use] middleware on [socket.handshake.auth.token]: [inl] is
    [next(new Error(message))], [inr] is [next()] with [socket.user] set. *)
Definition io_use (d : Db) (token : option Str) : Str + SocketUser :=
  match token with
  | None => inl (js "Authentication error: No token provided")
  | Some t =>
      if negb (truthy t) then inl (js "Authentication error: No token provided")
      else
        match verifyToken t with
        | None => inl (js "Authentication error: Invalid token")
        | Some userId =>
            match db_users d !! userId with
            | None => inl (js "Authentication error: User not found")
            | Some u => inr (socket_user userId u)
            end
        end
  end.

(** A handshake of socket [sid]: the middleware, then the [connection]
    handler; a refused handshake leaves no socket behind. *)
Definition handshake (st : State) (sid : Str) (token : option Str) : State * option Str :=
  match io_use (db st) token with
  | inl message => (st, Some message)
  | inr u => (connection st sid u, None)
  end.
End authentication.

(** ** Shape of the stored messages *)

(** Content that is non-empty and neither starts nor ends with white
    space. *)
Definition content_trimmed (c : Str) : bool :=
  match c, last c with
  | x :: _, Some y => negb (is_white_space x) && negb (is_white_space y)
  | _, _ => false
  end.

(** A row has trimmed content, a sender the store knows, and exactly one
    of a room and a chat, which the store knows. *)
Definition message_ok (d : Db) (row : MessageRow) : bool :=
  content_trimmed (content row)
  && bool_decide (is_Some (db_users d !! senderId row))
  && match roomId row, chatId row with
     | Some r, None => bool_decide (is_Some (db_rooms d !! r))
     | None, Some c => bool_decide (is_Some (db_chats d !! c))
     | _, _ => false
     end.

Definition store_ok (d : Db) : Prop :=
  map_Forall (λ _ row, message_ok d row = true) (db_messages d).

(** The event an emission carries. *)
Definition emitted_event (e : Emission) : ServerEvent :=
  match e with
  | socket_emit _ ev | socket_to _ _ ev | io_to _ ev => ev
  end.

(** The events that write to the store. *)
Definition is_send (ev : ClientEvent) : bool :=
  match ev with
  | SendMessage _ _ | SendDm _ _ => true
  | _ => false
  end.

(** ** A second world: two rooms, and a token *)
Module Sample2.

Definition store : Db :=
  {| db_users := db_users Sample.store; db_pods := db_pods Sample.store;
     db_podMembers := db_podMembers Sample.store;
     db_rooms := <[js "r2" := {| room_podId := js "p1" |}]> (db_rooms Sample.store);
     db_chats := db_chats Sample.store;
     db_chatParticipants := db_chatParticipants Sample.store;
     db_messages := db_messages Sample.store |}.

Definition world : State := set_db Sample.world store.

Definition verify (t : Str) : option Str :=
  if bool_decide (t = js "bob-token") then Some (js "bob") else None.

End Sample2.

(** * Properties *)

(** ** History pagination *)

Section pagination.

Local Instance newer_first_total : Total newer_first.
Proof. intros a b. unfold newer_first. lia. Qed.

Local Instance newer_first_trans : Transitive newer_first.
Proof. intros a b c. unfold newer_first. lia. Qed.

Local Instance older_trans : Transitive older.
Proof. intros a b c. unfold older. lia. Qed.

Lemma filter_all {A} (P : A → Prop) `{!∀ x, Decision (P x)} (l : list A) :
  Forall P l → filter P l = l.
Proof.
  induction 1 as [|x l Hx _ IH]; [done|].
  by rewrite filter_cons_True, IH.
Qed.

Lemma filter_none {A} (P : A → Prop) `{!∀ x, Decision (P x)} (l : list A) :
  Forall (λ x, ¬ P x) l → filter P l = [].
Proof.
  induction 1 as [|x l Hx _ IH]; [done|].
  by rewrite filter_cons_False.
Qed.

Lemma Sorted_weaken {A} (R1 R2 : relation A) (l : list A) :
  (∀ a b, R1 a b → R2 a b) → Sorted R1 l → Sorted R2 l.
Proof.
  intros HR. induction 1 as [|x l _ IH Hd]; constructor; [done|].
  destruct Hd; constructor; auto.
Qed.

Lemma older_unique (ms : list Message) x y :
  Sorted older ms → x ∈ ms → y ∈ ms → createdAt x.2 = createdAt y.2 → x = y.
Proof.
  intros Hs%Sorted_StronglySorted; [|apply _].
  induction Hs as [|m ms Hs IH Hall]; intros Hx Hy Heq.
  - by apply elem_of_nil in Hx.
  - rewrite Forall_forall in Hall. unfold older in Hall.
    apply elem_of_cons in Hx as [->|Hx]; apply elem_of_cons in Hy as [->|Hy];
      [done| | |by apply IH].
    + specialize (Hall _ Hy). lia.
    + specialize (Hall _ Hx). lia.
Qed.

(** Ordering newest-first a table slice whose rows are [ms] yields [ms]
    backwards. *)
Lemma sort_newer_first (l ms : list Message) :
  l ≡ₚ ms → Sorted older ms → merge_sort newer_first l = reverse ms.
Proof.
  intros Hp Hs.
  apply (Sorted_unique_strong newer_first).
  - intros x1 x2 H1 H2 Hle1 Hle2. unfold newer_first in *.
    apply (older_unique ms); [done| | |lia].
    + by rewrite <-Hp, <-(merge_sort_Permutation newer_first).
    + by rewrite <-elem_of_reverse.
  - apply Sorted_merge_sort; apply _.
  - apply Sorted_reverse in Hs. revert Hs. apply Sorted_weaken.
    intros a b. unfold flip, older, newer_first. lia.
  - by rewrite merge_sort_Permutation, reverse_Permutation.
Qed.

(** In an ascending list, the rows older than the row at index [k] are
    the first [k] rows. *)
Lemma filter_older_take (ms : list Message) k mk :
  Sorted older ms → ms !! k = Some mk →
  filter (λ m, createdAt m.2 < createdAt mk.2) ms = take k ms.
Proof.
  intros Hs%Sorted_StronglySorted Hk; [|apply _].
  rewrite <-(take_drop_middle _ _ _ Hk) in Hs.
  apply StronglySorted_app in Hs as (Hcross & _ & Hr).
  apply StronglySorted_cons in Hr as [Hr _].
  rewrite <-(take_drop_middle _ _ _ Hk) at 1.
  rewrite filter_app, filter_cons_False by lia.
  rewrite (filter_none _ (drop (S k) ms)), app_nil_r.
  - apply filter_all, Forall_forall. intros m Hm.
    apply (Hcross m mk Hm). by left.
  - apply Forall_forall. intros m Hm.
    rewrite Forall_forall in Hr. specialize (Hr _ Hm). unfold older in Hr. lia.
Qed.

(** The page the route answers with: the last [n] rows of the slice,
    oldest first. *)
Lemma page_of_slice (d : Db) rid lt (ms : list Message) (n : nat) :
  filter (λ m, where_matches rid lt m = true) (map_to_list (db_messages d)) ≡ₚ ms →
  Sorted older ms →
  message_findMany d rid lt (Some (Z.of_nat n))
  = Ok (reverse (drop (length ms - n) ms)).
Proof.
  intros Hp Hs. unfold message_findMany, prisma_take.
  rewrite (sort_newer_first _ ms Hp Hs).
  destruct (Z.leb_spec 0 (Z.of_nat n)); [|lia].
  by rewrite Nat2Z.id, take_reverse.
Qed.

Lemma where_room (d : Db) rid :
  filter (λ m, where_matches rid None m = true) (map_to_list (db_messages d))
  = room_messages d rid.
Proof.
  unfold room_messages. apply list_filter_iff. intros m. unfold where_matches.
  rewrite andb_true_r. apply bool_decide_eq_true.
Qed.

Lemma where_room_lt (d : Db) rid t :
  filter (λ m, where_matches rid (Some t) m = true) (map_to_list (db_messages d))
  = filter (λ m, createdAt m.2 < t) (room_messages d rid).
Proof.
  unfold room_messages. rewrite list_filter_filter. apply list_filter_iff.
  intros m. unfold where_matches.
  rewrite andb_true_iff, !bool_decide_eq_true. tauto.
Qed.

Lemma room_messages_lookup (d : Db) rid (m : Message) :
  m ∈ room_messages d rid → db_messages d !! m.1 = Some m.2.
Proof.
  unfold room_messages. rewrite list_elem_of_filter. intros [_ Hm].
  destruct m. by apply elem_of_map_to_list.
Qed.
End pagination.

(** For a user allowed in the pod, the route is the query and its reversal. *)
Lemma get_room_messages_allowed (d : Db) (userId rid : Str) (limit before : QueryValue) :
  canAccessRoom d userId rid = true →
  get_room_messages d userId rid limit before
  = match message_findMany d rid
            (match before with
             | QString b => if truthy b then message_findUnique d b else None
             | _ => None
             end)
            (parseInt (match limit with
                       | QAbsent => js "50" | QString s => s | QOther => js "50"
                       end)) with
    | Throw => Json500 (js "Failed to fetch messages")
    | Ok messages => Json200 (reverse messages)
    end.
Proof.
  unfold canAccessRoom, get_room_messages, room_findUnique, podMember_findUnique.
  destruct (db_rooms d !! rid) as [r|]; [|done].
  destruct (db_pods d !! room_podId r) as [p|]; [|done]. simpl.
  intros [->| ->]%orb_true_iff; rewrite ?andb_false_r; simpl; by destruct limit.
Qed.

(** A cursor naming no message is ignored. *)
Lemma missing_cursor_ignored (d : Db) (userId rid b : Str) (limit : QueryValue) :
  db_messages d !! b = None →
  get_room_messages d userId rid limit (QString b)
  = get_room_messages d userId rid limit QAbsent.
Proof.
  intros Hb. unfold get_room_messages, message_findUnique. rewrite Hb. simpl.
  by destruct (truthy b).
Qed.

(** C3. In a room whose messages are [m1 .. m10] with strictly increasing
    creation times, a reader allowed in the pod who asks for [limit=3] without
    a cursor gets [m8; m9; m10], oldest first; with [before] the id of
    [m8] gets [m5; m6; m7]; and a [before] that names no message gives the
    answer of the request without a cursor. *)
Theorem history_pagination (d : Db) (userId rid : Str)
    (m1 m2 m3 m4 m5 m6 m7 m8 m9 m10 : Message) :
  canAccessRoom d userId rid = true →
  room_messages d rid ≡ₚ [m1; m2; m3; m4; m5; m6; m7; m8; m9; m10] →
  Sorted older [m1; m2; m3; m4; m5; m6; m7; m8; m9; m10] →
  m8.1 ≠ [] →
  get_room_messages d userId rid (QString (js "3")) QAbsent = Json200 [m8; m9; m10]
  ∧ get_room_messages d userId rid (QString (js "3")) (QString m8.1)
    = Json200 [m5; m6; m7]
  ∧ ∀ b, db_messages d !! b = None →
      get_room_messages d userId rid (QString (js "3")) (QString b)
      = Json200 [m8; m9; m10].
Proof.
  intros Hacc Hp Hs Hid.
  assert (get_room_messages d userId rid (QString (js "3")) QAbsent
          = Json200 [m8; m9; m10]) as Hnewest.
  { rewrite get_room_messages_allowed by done.
    cbv beta iota. change (parseInt (js "3")) with (Some (Z.of_nat 3)).
    pose proof (page_of_slice d rid None _ 3%nat ltac:(by rewrite where_room) Hs) as ->.
    by rewrite reverse_involutive. }
  split_and!; [done| |].
  - rewrite get_room_messages_allowed by done.
    cbv beta iota. change (parseInt (js "3")) with (Some (Z.of_nat 3)).
    assert (truthy m8.1 = true) as -> by (by destruct m8.1).
    assert (m8 ∈ room_messages d rid) as Hm8.
    { rewrite Hp. set_solver. }
    unfold message_findUnique. rewrite (room_messages_lookup _ _ _ Hm8).
    cbn [fmap option_fmap option_map].
    assert (Sorted older [m1; m2; m3; m4; m5; m6; m7]) as Hs7.
    { apply (Sorted_weaken older older); [done|].
      repeat match goal with
             | H : Sorted _ (_ :: _) |- _ => inv H
             | H : HdRel _ _ (_ :: _) |- _ => inv H
             end.
      repeat constructor; done. }
    assert (filter (λ m, where_matches rid (Some (createdAt m8.2)) m = true)
              (map_to_list (db_messages d)) ≡ₚ [m1; m2; m3; m4; m5; m6; m7]) as Hq.
    { rewrite where_room_lt, Hp.
      by rewrite (filter_older_take _ 7%nat m8 Hs). }
    pose proof (page_of_slice d rid _ _ 3%nat Hq Hs7) as ->.
    by rewrite reverse_involutive.
  - intros b Hb. by rewrite missing_cursor_ignored.
Qed.

Lemma history_pagination_witness :
  get_room_messages Sample.store (js "bob") (js "r1") (QString (js "3")) QAbsent
  = Json200 [Sample.m8; Sample.m9; Sample.m10]
  ∧ get_room_messages Sample.store (js "bob") (js "r1") (QString (js "3"))
      (QString (js "m08"))
    = Json200 [Sample.m5; Sample.m6; Sample.m7]
  ∧ ∀ b, db_messages Sample.store !! b = None →
      get_room_messages Sample.store (js "bob") (js "r1") (QString (js "3")) (QString b)
      = Json200 [Sample.m8; Sample.m9; Sample.m10].
Proof.
  apply (history_pagination Sample.store (js "bob") (js "r1")
           Sample.m1 Sample.m2 Sample.m3 Sample.m4 Sample.m5
           Sample.m6 Sample.m7 Sample.m8 Sample.m9 Sample.m10).
  - vm_compute. reflexivity.
  - apply (bool_decide_unpack _). vm_compute. exact I.
  - apply (bool_decide_unpack _). vm_compute. exact I.
  - vm_compute. discriminate.
Defined.

(** ** The room session manager *)

Lemma canAccessRoom_true (d : Db) (uid rid : Str) :
  canAccessRoom d uid rid = true →
  ∃ r p, room_findUnique d rid = Ok (Some (r, p))
         ∧ negb (podMember_findUnique d (pod_id p) uid)
           && negb (bool_decide (ownerId p = uid)) = false.
Proof.
  unfold canAccessRoom, room_findUnique, podMember_findUnique.
  destruct (db_rooms d !! rid) as [r|]; [|done].
  destruct (db_pods d !! room_podId r) as [p|]; [|done].
  intros Hacc. eexists _, _. split; [done|]. cbn [pod_id ownerId].
  apply orb_true_iff in Hacc as [-> | ->]; by rewrite ?andb_false_r.
Qed.

Lemma canAccessRoom_false (d : Db) (uid rid : Str) :
  canAccessRoom d uid rid = false →
  room_findUnique d rid = Throw
  ∨ room_findUnique d rid = Ok None
  ∨ ∃ r p, room_findUnique d rid = Ok (Some (r, p))
           ∧ negb (podMember_findUnique d (pod_id p) uid)
             && negb (bool_decide (ownerId p = uid)) = true.
Proof.
  unfold canAccessRoom, room_findUnique, podMember_findUnique.
  destruct (db_rooms d !! rid) as [r|]; [|auto].
  destruct (db_pods d !! room_podId r) as [p|]; [|auto].
  intros [H1 H2]%orb_false_iff. right; right. eexists _, _. split; [done|].
  cbn [pod_id ownerId]. by rewrite H1, H2.
Qed.

Lemma canAccessRoom_spec (d : Db) (uid rid : Str) (r : RoomRow) (p : PodRow) :
  db_rooms d !! rid = Some r → db_pods d !! room_podId r = Some p →
  canAccessRoom d uid rid = true
  ↔ pod_ownerId p = uid ∨ (room_podId r, uid) ∈ db_podMembers d.
Proof.
  intros Hr Hp. unfold canAccessRoom. rewrite Hr, Hp.
  by rewrite orb_true_iff, !bool_decide_eq_true.
Qed.

Lemma join_room_allowed (env : Env) (st : State) (sid : Str) (socket : Conn) (rid : Str) :
  sockets st !! sid = Some socket →
  canAccessRoom (db st) (su_id (user socket)) rid = true →
  handle env st sid (JoinRoom rid)
  = (set_socket st sid (set_currentRoom (socket_join socket rid) (Some rid)),
     [socket_to sid rid (user_joined (presence_user (user socket)) (now env));
      socket_emit sid (room_joined rid (js "Successfully joined room"))]).
Proof.
  intros Hsock (r & p & Hfind & Hgate)%canAccessRoom_true.
  unfold handle, join_room. by rewrite Hsock, Hfind, Hgate.
Qed.

Lemma join_room_refused (env : Env) (st : State) (sid : Str) (socket : Conn) (rid : Str)
    (r : RoomRow) (p : PodRow) :
  sockets st !! sid = Some socket →
  db_rooms (db st) !! rid = Some r → db_pods (db st) !! room_podId r = Some p →
  canAccessRoom (db st) (su_id (user socket)) rid = false →
  handle env st sid (JoinRoom rid)
  = (st, [socket_emit sid
            (error (js "You must be a member of this pod to join this room"))]).
Proof.
  intros Hsock Hr Hp Hacc. unfold handle, join_room. rewrite Hsock.
  destruct (canAccessRoom_false _ _ _ Hacc) as [Hf|[Hf|(r' & p' & Hf & Hgate)]].
  - unfold room_findUnique in Hf. by rewrite Hr, Hp in Hf.
  - unfold room_findUnique in Hf. by rewrite Hr, Hp in Hf.
  - by rewrite Hf, Hgate.
Qed.

(** C1. For a room that exists, [join-room] acknowledges the join exactly
    when the user owns the room's pod or is a member of it, and then the
    socket is attached to the room and has it as active room; otherwise
    the only emission is the not-a-member error, sent to the requesting
    socket alone, and the state (channels and active room included) is
    unchanged. *)
Theorem join_room_iff_owner_or_member (env : Env) (st : State) (sid : Str)
    (socket : Conn) (rid : Str) (r : RoomRow) (p : PodRow) :
  sockets st !! sid = Some socket →
  db_rooms (db st) !! rid = Some r →
  db_pods (db st) !! room_podId r = Some p →
  let uid := su_id (user socket) in
  let allowed := pod_ownerId p = uid ∨ (room_podId r, uid) ∈ db_podMembers (db st) in
  let res := handle env st sid (JoinRoom rid) in
  (socket_emit sid (room_joined rid (js "Successfully joined room")) ∈ res.2 ↔ allowed)
  ∧ (allowed →
       ∃ socket', sockets res.1 !! sid = Some socket'
                  ∧ rooms socket' = rooms socket ∪ {[rid]}
                  ∧ currentRoom socket' = Some rid)
  ∧ (¬ allowed →
       res.1 = st
       ∧ res.2 = [socket_emit sid
                    (error (js "You must be a member of this pod to join this room"))]
       ∧ error_kind (js "You must be a member of this pod to join this room")
         = Some Unauthorized
       ∧ ∀ e, e ∈ res.2 → recipients (sockets res.1) e = {[sid]}).
Proof.
  intros Hsock Hr Hp uid allowed res.
  pose proof (canAccessRoom_spec (db st) uid rid r p Hr Hp) as Hspec.
  fold allowed in Hspec.
  destruct (canAccessRoom (db st) uid rid) eqn:Hacc.
  - assert allowed as Hal by (by apply Hspec).
    subst res. rewrite (join_room_allowed env st sid socket rid Hsock Hacc). simpl.
    split_and!.
    + split; [done|]. intros _. right. left.
    + intros _. eexists. split; [apply lookup_insert_eq|done].
    + done.
  - assert (¬ allowed) as Hnal.
    { intros Hal. destruct Hspec as [_ Hback]. by specialize (Hback Hal). }
    subst res. rewrite (join_room_refused env st sid socket rid r p Hsock Hr Hp Hacc).
    simpl. split_and!.
    + split; [|done]. intros Hin. apply list_elem_of_singleton in Hin. discriminate.
    + done.
    + intros _. split_and!; [done..|].
      intros e ->%list_elem_of_singleton. done.
Qed.

Lemma join_room_iff_owner_or_member_witness :
  let res := handle Sample.env Sample.world (js "s3") (JoinRoom (js "r1")) in
  (¬ (js "alice" = js "carol" ∨ (js "p1", js "carol") ∈ db_podMembers Sample.store))
  ∧ res.1 = Sample.world
  ∧ res.2 = [socket_emit (js "s3")
               (error (js "You must be a member of this pod to join this room"))].
Proof.
  assert (¬ (js "alice" = js "carol" ∨ (js "p1", js "carol") ∈ db_podMembers Sample.store))
    as Hno.
  { apply (bool_decide_unpack _). vm_compute. exact I. }
  split; [exact Hno|].
  pose proof (join_room_iff_owner_or_member Sample.env Sample.world (js "s3")
                Sample.carol (js "r1") {| room_podId := js "p1" |}
                {| pod_ownerId := js "alice" |}
                ltac:(vm_compute; reflexivity) ltac:(vm_compute; reflexivity)
                ltac:(vm_compute; reflexivity)) as (_ & _ & Hrefused).
  destruct (Hrefused Hno) as (H1 & H2 & _). split; [exact H1|exact H2].
Defined.

(** C8. A [leave-room] for a room other than the socket's active room [S]
    does nothing: nothing is emitted (no [user-left], no [room-left]) and
    the state, with the active room [S] and the joined channels, is as
    before. *)
Theorem leave_room_other_is_noop (env : Env) (st : State) (sid : Str) (socket : Conn)
    (S R : Str) :
  sockets st !! sid = Some socket →
  currentRoom socket = Some S →
  R ≠ S →
  handle env st sid (LeaveRoom R) = (st, [])
  ∧ sockets (handle env st sid (LeaveRoom R)).1 !! sid = Some socket.
Proof.
  intros Hsock Hcur Hne. unfold handle, leave_room. rewrite Hsock, Hcur.
  rewrite bool_decide_eq_false_2 by congruence. done.
Qed.

Lemma leave_room_other_is_noop_witness :
  handle Sample.env Sample.world (js "s2") (LeaveRoom (js "r9"))
  = (Sample.world, [])
  ∧ sockets (handle Sample.env Sample.world (js "s2") (LeaveRoom (js "r9"))).1
      !! js "s2" = Some Sample.bob.
Proof.
  apply (leave_room_other_is_noop Sample.env Sample.world (js "s2") Sample.bob
           (js "r1") (js "r9")).
  - vm_compute. reflexivity.
  - reflexivity.
  - vm_compute. discriminate.
Defined.

(** ** The active room invariant *)

Lemma active_room_joined_check (st : State) :
  map_Forall (λ _ socket, active_room_ok socket = true) (sockets st) ↔
  active_room_joined st.
Proof.
  unfold active_room_joined, active_room_ok. split.
  - intros Hall sid socket r Hsock Hcur. specialize (Hall sid socket Hsock).
    simpl in Hall. rewrite Hcur in Hall. by apply bool_decide_eq_true in Hall.
  - intros Hinv sid socket Hsock. simpl.
    destruct (currentRoom socket) as [r|] eqn:Hcur; [|done].
    apply bool_decide_eq_true. by apply (Hinv sid).
Qed.

Lemma active_room_joined_set_socket (st : State) (sid : Str) (socket : Conn) :
  active_room_joined st →
  (∀ r, currentRoom socket = Some r → r ∈ rooms socket) →
  active_room_joined (set_socket st sid socket).
Proof.
  intros Hinv Hnew sid' socket' r. unfold set_socket. simpl.
  destruct (decide (sid = sid')) as [<-|Hne].
  - rewrite lookup_insert_eq. intros [= <-]. apply Hnew.
  - rewrite lookup_insert_ne by done. apply Hinv.
Qed.

Lemma active_room_joined_set_db (st : State) (d : Db) :
  active_room_joined st → active_room_joined (set_db st d).
Proof. intros Hinv sid socket r. apply Hinv. Qed.

Lemma active_room_joined_join (st : State) (sid : Str) (socket : Conn) (channel : Str) :
  sockets st !! sid = Some socket →
  active_room_joined st →
  active_room_joined (set_socket st sid (socket_join socket channel)).
Proof.
  intros Hsock Hinv. apply active_room_joined_set_socket; [done|].
  intros r Hcur. simpl in *. apply elem_of_union_l. by apply (Hinv sid).
Qed.

(** [leave-chat] keeps the invariant unless it detaches the socket from
    the channel that is its active room. *)
Lemma active_room_joined_leave_chat (env : Env) (st : State) (sid cid : Str) :
  (∀ socket, sockets st !! sid = Some socket →
             currentRoom socket ≠ Some (chat_channel cid)) →
  active_room_joined st →
  active_room_joined (handle env st sid (LeaveChat cid)).1.
Proof.
  intros Hne Hinv. unfold handle.
  destruct (sockets st !! sid) as [socket|] eqn:Hsock; [|done].
  unfold leave_chat. simpl. apply active_room_joined_set_socket; [done|].
  intros r Hcur. simpl in *. apply elem_of_difference. split.
  - by apply (Hinv sid).
  - intros ->%elem_of_singleton. by apply (Hne socket).
Qed.

Lemma active_room_joined_join_chat (env : Env) (st : State) (sid cid : Str) :
  active_room_joined st →
  active_room_joined (handle env st sid (JoinChat cid)).1.
Proof.
  intros Hinv. unfold handle.
  destruct (sockets st !! sid) as [socket|] eqn:Hsock; [|done].
  unfold join_chat. destruct (negb _); [done|].
  by apply active_room_joined_join.
Qed.

Lemma active_room_joined_join_notifications (env : Env) (st : State) (sid : Str) :
  active_room_joined st →
  active_room_joined (handle env st sid JoinNotifications).1.
Proof.
  intros Hinv. unfold handle.
  destruct (sockets st !! sid) as [socket|] eqn:Hsock; [|done].
  by apply active_room_joined_join.
Qed.

(** A new connection has no active room. *)
Lemma active_room_joined_connection (st : State) (sid : Str) (u : SocketUser) :
  active_room_joined st → active_room_joined (connection st sid u).
Proof. intros Hinv. by apply active_room_joined_set_socket. Qed.

(** C9. Every operation of the session manager, the message pipeline and
    the typing broadcaster, and the disconnect, preserves: the active room
    of a socket, when set, is a channel the socket has joined. *)
Theorem active_room_joined_preserved (env : Env) (st : State) (sid : Str)
    (ev : ClientEvent) :
  session_operation ev = true →
  active_room_joined st →
  active_room_joined (handle env st sid ev).1.
Proof.
  intros Hop Hinv. unfold handle.
  destruct (sockets st !! sid) as [socket|] eqn:Hsock; [|done].
  destruct ev; try discriminate Hop; clear Hop.
  - unfold join_room.
    destruct (room_findUnique (db st) rid) as [[[r p]|]|]; [|done..].
    destruct (_ && _); [done|]. simpl.
    apply active_room_joined_set_socket; [done|].
    intros r' [= <-]. simpl. set_solver.
  - unfold leave_room. case_bool_decide; [|done]. simpl.
    by apply active_room_joined_set_socket.
  - unfold send_message. destruct (content_missing c); [done|].
    destruct (room_findUnique (db st) rid) as [[[r p]|]|]; [|done..].
    destruct (_ && _); [done|].
    destruct (message_create _ _ _) as [[[d m] u]|]; [|done].
    by apply active_room_joined_set_db.
  - unfold typing_start. by case_bool_decide.
  - unfold typing_stop. by case_bool_decide.
  - unfold send_dm. destruct (content_missing c); [done|].
    destruct (negb _); [done|].
    destruct (message_create _ _ _) as [[[d m] u]|]; [|done].
    destruct (chat_update _ _ _); by apply active_room_joined_set_db.
  - done.
  - done.
  - unfold disconnect. simpl. intros sid' socket' r. simpl.
    destruct (decide (sid = sid')) as [<-|Hne].
    + by rewrite lookup_delete_eq.
    + rewrite lookup_delete_ne by done. apply Hinv.
Qed.

Lemma active_room_joined_preserved_witness :
  active_room_joined Sample.world
  ∧ active_room_joined
      (handle Sample.env Sample.world (js "s1") (JoinRoom (js "r1"))).1.
Proof.
  assert (active_room_joined Sample.world) as Hinv.
  { apply active_room_joined_check. apply (bool_decide_unpack _).
    vm_compute. exact I. }
  split; [exact Hinv|].
  apply (active_room_joined_preserved Sample.env Sample.world (js "s1")
           (JoinRoom (js "r1"))); [reflexivity|exact Hinv].
Defined.

(** ** The message pipeline *)

Lemma trimStart_nil (c : Str) : trimStart c = [] ↔ whitespace_only c.
Proof.
  unfold whitespace_only. induction c as [|x c IH]; simpl; [done|].
  rewrite Forall_cons. destruct (is_white_space x); [|split; [done|]; intros [? _]; done].
  rewrite IH. tauto.
Qed.

Lemma trimStart_head (c : Str) :
  match trimStart c with
  | x :: _ => is_white_space x = false
  | [] => True
  end.
Proof.
  induction c as [|x c IH]; simpl; [done|].
  destruct (is_white_space x) eqn:Hx; done.
Qed.

Lemma trim_nil (c : Str) : trim c = [] ↔ whitespace_only c.
Proof.
  unfold trim, trimEnd. split.
  - intros Hnil. apply trimStart_nil.
    apply (f_equal reverse) in Hnil. rewrite reverse_involutive, reverse_nil in Hnil.
    apply trimStart_nil in Hnil. unfold whitespace_only in Hnil.
    rewrite Forall_reverse in Hnil.
    pose proof (trimStart_head c) as Hhead.
    destruct (trimStart c) as [|x l]; [done|].
    apply Forall_cons in Hnil as [Hx _]. congruence.
  - intros Hws%trimStart_nil. by rewrite Hws.
Qed.

(** The guard [!content || !content.trim()] holds exactly for empty or
    white-space-only content. *)
Lemma content_missing_spec (c : Str) : content_missing c = true ↔ whitespace_only c.
Proof.
  unfold content_missing. rewrite orb_true_iff, !negb_true_iff.
  assert (∀ l : Str, truthy l = false ↔ l = []) as Htr by (by intros []).
  rewrite !Htr, trim_nil. split; [|auto].
  intros [->|?]; [constructor|done].
Qed.

Lemma content_present_spec (c : Str) : content_missing c = false ↔ ¬ whitespace_only c.
Proof. rewrite <-content_missing_spec. by destruct (content_missing c). Qed.

Lemma send_message_missing_content (env : Env) (st : State) (sid : Str) (socket : Conn)
    (rid c : Str) :
  sockets st !! sid = Some socket → content_missing c = true →
  handle env st sid (SendMessage rid c)
  = (st, [socket_emit sid (error (js "Message content is required"))]).
Proof. intros Hsock Hc. unfold handle, send_message. by rewrite Hsock, Hc. Qed.

Lemma send_dm_missing_content (env : Env) (st : State) (sid : Str) (socket : Conn)
    (cid c : Str) :
  sockets st !! sid = Some socket → content_missing c = true →
  handle env st sid (SendDm cid c)
  = (st, [socket_emit sid (error (js "Message content is required"))]).
Proof. intros Hsock Hc. unfold handle, send_dm. by rewrite Hsock, Hc. Qed.

Lemma send_message_ok (env : Env) (st : State) (sid : Str) (socket : Conn)
    (rid c : Str) (u : UserRow) :
  sockets st !! sid = Some socket →
  content_missing c = false →
  canAccessRoom (db st) (su_id (user socket)) rid = true →
  db_users (db st) !! su_id (user socket) = Some u →
  db_messages (db st) !! fresh_id env = None →
  let row := {| content := trim c; roomId := Some rid; chatId := None;
                senderId := su_id (user socket); createdAt := now env |} in
  handle env st sid (SendMessage rid c)
  = (set_db st (insert_message (db st) (fresh_id env) row),
     [io_to rid (new_message (fresh_id env, row)
                   (room_sender (su_id (user socket)) u))]).
Proof.
  intros Hsock Hc Hacc Hu Hfresh row.
  destruct (canAccessRoom_true _ _ _ Hacc) as (r & p & Hfind & Hgate).
  unfold handle, send_message. rewrite Hsock, Hc, Hfind, Hgate.
  unfold message_create. cbn [data_senderId data_roomId data_chatId data_content].
  rewrite Hu, Hfresh.
  assert (references_ok (db_rooms (db st)) (Some rid) = true) as ->; [|done].
  unfold references_ok. apply bool_decide_eq_true.
  unfold room_findUnique in Hfind. by destruct (db_rooms (db st) !! rid).
Qed.

Lemma send_dm_ok (env : Env) (st : State) (sid : Str) (socket : Conn)
    (cid c : Str) (u : UserRow) :
  sockets st !! sid = Some socket →
  content_missing c = false →
  canAccessChat (db st) (su_id (user socket)) cid = true →
  is_Some (db_chats (db st) !! cid) →
  db_users (db st) !! su_id (user socket) = Some u →
  db_messages (db st) !! fresh_id env = None →
  let row := {| content := trim c; roomId := None; chatId := Some cid;
                senderId := su_id (user socket); createdAt := now env |} in
  handle env st sid (SendDm cid c)
  = (set_db st (touch_chat (insert_message (db st) (fresh_id env) row) cid (now env)),
     [io_to (chat_channel cid)
        (new_dm (fresh_id env, row) (dm_sender (su_id (user socket)) u))]).
Proof.
  intros Hsock Hc Hacc [ch Hchat] Hu Hfresh row.
  unfold handle, send_dm, canAccessChat in *. rewrite Hsock, Hc.
  unfold chatParticipant_findUnique. rewrite Hacc. simpl negb. cbv iota.
  unfold message_create. cbn [data_senderId data_roomId data_chatId data_content].
  rewrite Hu, Hfresh. unfold references_ok at 1 2. rewrite Hchat.
  rewrite bool_decide_eq_true_2 by eauto. simpl andb. cbv iota.
  unfold chat_update, insert_message at 1. simpl db_chats. by rewrite Hchat.
Qed.

Lemma send_message_rejected (env : Env) (st : State) (sid : Str) (socket : Conn)
    (rid c : Str) :
  sockets st !! sid = Some socket →
  canAccessRoom (db st) (su_id (user socket)) rid = false →
  ∃ message, handle env st sid (SendMessage rid c)
             = (st, [socket_emit sid (error message)]).
Proof.
  intros Hsock Hacc. unfold handle, send_message. rewrite Hsock.
  destruct (content_missing c); [eauto|].
  destruct (canAccessRoom_false _ _ _ Hacc) as [Hf|[Hf|(r & p & Hf & Hgate)]];
    rewrite Hf; [eauto..|]. rewrite Hgate. eauto.
Qed.

Lemma send_dm_rejected (env : Env) (st : State) (sid : Str) (socket : Conn)
    (cid c : Str) :
  sockets st !! sid = Some socket →
  db_chats (db st) !! cid = None
  ∨ canAccessChat (db st) (su_id (user socket)) cid = false →
  ∃ message, handle env st sid (SendDm cid c)
             = (st, [socket_emit sid (error message)]).
Proof.
  intros Hsock Hno. unfold handle, send_dm. rewrite Hsock.
  destruct (content_missing c); [eauto|].
  unfold canAccessChat in Hno. unfold chatParticipant_findUnique.
  destruct (bool_decide _); [|simpl; eauto]. simpl negb. cbv iota.
  destruct Hno as [Hchat|?]; [|done].
  unfold message_create. cbn [data_senderId data_roomId data_chatId data_content].
  destruct (db_users (db st) !! _); [|eauto].
  destruct (db_messages (db st) !! _); [eauto|].
  unfold references_ok. rewrite Hchat.
  rewrite (bool_decide_eq_false_2 (is_Some None)) by (by intros [? ?]).
  rewrite andb_false_r. eauto.
Qed.

Lemma elem_of_joined (conns : gmap Str Conn) (channel s : Str) :
  s ∈ joined conns channel ↔ ∃ c, conns !! s = Some c ∧ channel ∈ rooms c.
Proof.
  unfold joined. rewrite elem_of_dom. unfold is_Some.
  setoid_rewrite map_lookup_filter_Some. done.
Qed.

(** C2. A [send-message] to a room that does not exist or that the sender
    may not access, and a [send-dm] to a chat that does not exist or that
    the sender is no participant of, emit one error event to the sender's
    socket and nothing else, and leave the whole state (message table
    included) as it was. *)
Theorem rejected_send_changes_nothing (env : Env) (st : State) (sid : Str)
    (socket : Conn) (c : Str) :
  sockets st !! sid = Some socket →
  let uid := su_id (user socket) in
  (∀ rid,
     db_rooms (db st) !! rid = None ∨ canAccessRoom (db st) uid rid = false →
     ∃ message,
       handle env st sid (SendMessage rid c) = (st, [socket_emit sid (error message)])
       ∧ recipients (sockets st) (socket_emit sid (error message)) = {[sid]})
  ∧ (∀ cid,
       db_chats (db st) !! cid = None ∨ canAccessChat (db st) uid cid = false →
       ∃ message,
         handle env st sid (SendDm cid c) = (st, [socket_emit sid (error message)])
         ∧ recipients (sockets st) (socket_emit sid (error message)) = {[sid]}).
Proof.
  intros Hsock uid. split.
  - intros rid Hno.
    assert (canAccessRoom (db st) uid rid = false) as Hacc.
    { destruct Hno as [Hroom|?]; [|done]. unfold canAccessRoom. by rewrite Hroom. }
    destruct (send_message_rejected env st sid socket rid c Hsock Hacc) as [message ->].
    by exists message.
  - intros cid Hno.
    destruct (send_dm_rejected env st sid socket cid c Hsock Hno) as [message ->].
    by exists message.
Qed.

Lemma rejected_send_changes_nothing_witness :
  (∃ message,
     handle Sample.env Sample.world (js "s3") (SendMessage (js "r1") (js "hello"))
     = (Sample.world, [socket_emit (js "s3") (error message)])
     ∧ recipients (sockets Sample.world) (socket_emit (js "s3") (error message))
       = {[js "s3"]})
  ∧ (∃ message,
       handle Sample.env Sample.world (js "s3") (SendDm (js "c1") (js "hello"))
       = (Sample.world, [socket_emit (js "s3") (error message)])
       ∧ recipients (sockets Sample.world) (socket_emit (js "s3") (error message))
         = {[js "s3"]}).
Proof.
  destruct (rejected_send_changes_nothing Sample.env Sample.world (js "s3")
              Sample.carol (js "hello") ltac:(vm_compute; reflexivity)) as [Hroom Hchat].
  split.
  - apply Hroom. right. vm_compute. reflexivity.
  - apply Hchat. right. vm_compute. reflexivity.
Defined.



(** C5, as stated, fails in its last part: [alice]'s socket [s1] has not
    joined the channel of [r1]; her [send-message] to [r1] goes through,
    the row is stored and emitted on the channel, and [s1] is not among
    the sockets it is delivered to, while [bob]'s socket [s2], which is
    joined, is. *)
Lemma unjoined_sender_gets_no_echo :
  let row := {| content := js "hello"; roomId := Some (js "r1"); chatId := None;
                senderId := js "alice"; createdAt := 11 |} in
  let e := io_to (js "r1")
             (new_message (js "m11", row)
                (room_sender (js "alice") (Sample.a_user "alice"))) in
  handle Sample.env Sample.world (js "s1") (SendMessage (js "r1") (js "hello"))
  = (set_db Sample.world (insert_message Sample.store (js "m11") row), [e])
  ∧ (js "s1" ∉ recipients (sockets Sample.world) e)
  ∧ js "s2" ∈ recipients (sockets Sample.world) e
  ∧ ¬ (∀ env st sid socket rid c st' e',
         sockets st !! sid = Some socket →
         handle env st sid (SendMessage rid c) = (st', [e']) →
         (∃ m sender, e' = io_to rid (new_message m sender)) →
         sid ∈ recipients (sockets st') e').
Proof.
  cbv zeta.
  assert (handle Sample.env Sample.world (js "s1") (SendMessage (js "r1") (js "hello"))
          = (set_db Sample.world
               (insert_message Sample.store (js "m11")
                  {| content := js "hello"; roomId := Some (js "r1"); chatId := None;
                     senderId := js "alice"; createdAt := 11 |}),
             [io_to (js "r1")
                (new_message
                   (js "m11",
                    {| content := js "hello"; roomId := Some (js "r1"); chatId := None;
                       senderId := js "alice"; createdAt := 11 |})
                   (room_sender (js "alice") (Sample.a_user "alice")))])) as Hsend.
  { by vm_compute. }
  assert (js "s1" ∉ recipients (sockets Sample.world)
            (io_to (js "r1")
               (new_message
                  (js "m11",
                   {| content := js "hello"; roomId := Some (js "r1"); chatId := None;
                      senderId := js "alice"; createdAt := 11 |})
                  (room_sender (js "alice") (Sample.a_user "alice"))))) as Hout.
  { apply (bool_decide_unpack _). by vm_compute. }
  split_and!; [exact Hsend|exact Hout| |].
  - apply (bool_decide_unpack _). by vm_compute.
  - intros Hclaim. apply Hout.
    apply (Hclaim Sample.env Sample.world (js "s1") Sample.alice (js "r1") (js "hello")
             _ _ ltac:(by vm_compute) Hsend). by eexists _, _.
Qed.

(** C5, amended.  A [send-message] or [send-dm] that goes through stores
    one row, under the generated key, with the trimmed content, the
    socket's user as sender and the clock as creation time, and emits
    that very row once, with [io.to] on the channel of the room or chat:
    it is delivered to exactly the sockets joined to that channel.  The
    sender is not excluded, so the sender's own socket receives the echo
    exactly when it is joined to the channel. *)
Theorem sent_row_reaches_joined_sockets (env : Env) (st : State) (sid : Str)
    (socket : Conn) (c : Str) (u : UserRow) :
  sockets st !! sid = Some socket →
  ¬ whitespace_only c →
  db_users (db st) !! su_id (user socket) = Some u →
  db_messages (db st) !! fresh_id env = None →
  let uid := su_id (user socket) in
  let row r ch := {| content := trim c; roomId := r; chatId := ch;
                     senderId := uid; createdAt := now env |} in
  (∀ rid,
     canAccessRoom (db st) uid rid = true →
     let res := handle env st sid (SendMessage rid c) in
     let e := io_to rid (new_message (fresh_id env, row (Some rid) None)
                           (room_sender uid u)) in
     res.2 = [e]
     ∧ db_messages (db res.1)
       = <[fresh_id env := row (Some rid) None]> (db_messages (db st))
     ∧ sockets res.1 = sockets st
     ∧ (∀ s, s ∈ recipients (sockets res.1) e
             ↔ ∃ socket', sockets st !! s = Some socket' ∧ rid ∈ rooms socket')
     ∧ (sid ∈ recipients (sockets res.1) e ↔ rid ∈ rooms socket))
  ∧ (∀ cid,
       canAccessChat (db st) uid cid = true →
       is_Some (db_chats (db st) !! cid) →
       let res := handle env st sid (SendDm cid c) in
       let e := io_to (chat_channel cid)
                  (new_dm (fresh_id env, row None (Some cid)) (dm_sender uid u)) in
       res.2 = [e]
       ∧ db_messages (db res.1)
         = <[fresh_id env := row None (Some cid)]> (db_messages (db st))
       ∧ sockets res.1 = sockets st
       ∧ (∀ s, s ∈ recipients (sockets res.1) e
               ↔ ∃ socket', sockets st !! s = Some socket'
                            ∧ chat_channel cid ∈ rooms socket')
       ∧ (sid ∈ recipients (sockets res.1) e ↔ chat_channel cid ∈ rooms socket)).
Proof.
  intros Hsock Hc%content_present_spec Hu Hfresh uid row.
  assert (∀ channel, sid ∈ joined (sockets st) channel ↔ channel ∈ rooms socket)
    as Hecho.
  { intros channel. rewrite elem_of_joined. split.
    - intros (socket' & Hsock' & Hin). congruence.
    - intros Hin. eauto. }
  split.
  - intros rid Hacc res e. subst res e.
    rewrite (send_message_ok env st sid socket rid c u) by done.
    cbn [fst snd set_db db sockets]. split_and!; [done..| |].
    + intros s. apply elem_of_joined.
    + apply Hecho.
  - intros cid Hacc Hchat res e. subst res e.
    rewrite (send_dm_ok env st sid socket cid c u) by done.
    cbn [fst snd set_db db sockets]. split_and!; [done..| |].
    + intros s. apply elem_of_joined.
    + apply Hecho.
Qed.

Lemma sent_row_reaches_joined_sockets_witness :
  let row := {| content := js "hello"; roomId := Some (js "r1"); chatId := None;
                senderId := js "bob"; createdAt := 11 |} in
  let e := io_to (js "r1")
             (new_message (js "m11", row) (room_sender (js "bob") (Sample.a_user "bob"))) in
  let res := handle Sample.env Sample.world (js "s2")
               (SendMessage (js "r1") (js "hello")) in
  res.2 = [e]
  ∧ db_messages (db res.1) = <[js "m11" := row]> (db_messages Sample.store)
  ∧ js "s2" ∈ recipients (sockets res.1) e.
Proof.
  destruct (sent_row_reaches_joined_sockets Sample.env Sample.world (js "s2")
              Sample.bob (js "hello") (Sample.a_user "bob")) as [Hroom _].
  - vm_compute. reflexivity.
  - apply (bool_decide_unpack _). vm_compute. exact I.
  - vm_compute. reflexivity.
  - vm_compute. reflexivity.
  - destruct (Hroom (js "r1")) as (Hout & Hstored & _ & _ & Hecho).
    + vm_compute. reflexivity.
    + split; [exact Hout|]. split; [exact Hstored|]. apply Hecho.
      apply (bool_decide_unpack _). vm_compute. exact I.
Defined.

(** C10. [send-message] looks neither at the channels the sender's socket
    has joined nor at its active room: from a sender the pod accepts the
    message is stored and emitted on the room's channel, and a sender whose
    socket is not joined to that channel is not among the sockets it is
    delivered to. *)
Theorem send_message_without_join (env : Env) (st : State) (sid : Str)
    (socket : Conn) (rid c : Str) :
  sockets st !! sid = Some socket →
  ¬ whitespace_only c →
  canAccessRoom (db st) (su_id (user socket)) rid = true →
  is_Some (db_users (db st) !! su_id (user socket)) →
  db_messages (db st) !! fresh_id env = None →
  rid ∉ rooms socket →
  let res := handle env st sid (SendMessage rid c) in
  ∃ m sender,
    res.2 = [io_to rid (new_message m sender)]
    ∧ m.1 = fresh_id env
    ∧ db_messages (db res.1) !! m.1 = Some m.2
    ∧ content m.2 = trim c ∧ roomId m.2 = Some rid
    ∧ sockets res.1 = sockets st
    ∧ sid ∉ recipients (sockets res.1) (io_to rid (new_message m sender)).
Proof.
  intros Hsock Hc%content_present_spec Hacc [u Hu] Hfresh Hout res. subst res.
  rewrite (send_message_ok env st sid socket rid c u) by done.
  eexists _, _. split; [done|]. simpl. split_and!; [done| |done..|].
  - apply lookup_insert_eq.
  - intros (socket' & Hsock' & Hin)%elem_of_joined. congruence.
Qed.

Lemma send_message_without_join_witness :
  let res := handle Sample.env Sample.world (js "s1")
               (SendMessage (js "r1") (js "hello")) in
  (js "r1" ∉ rooms Sample.alice)
  ∧ currentRoom Sample.alice = None
  ∧ ∃ m sender,
      res.2 = [io_to (js "r1") (new_message m sender)]
      ∧ db_messages (db res.1) !! m.1 = Some m.2
      ∧ (js "s1" ∉ recipients (sockets res.1) (io_to (js "r1") (new_message m sender))).
Proof.
  assert (js "r1" ∉ rooms Sample.alice) as Hout.
  { apply (bool_decide_unpack _). vm_compute. exact I. }
  split; [exact Hout|]. split; [reflexivity|].
  destruct (send_message_without_join Sample.env Sample.world (js "s1")
              Sample.alice (js "r1") (js "hello"))
    as (m & sender & H1 & _ & H2 & _ & _ & _ & H3).
  - vm_compute. reflexivity.
  - apply (bool_decide_unpack _). vm_compute. exact I.
  - vm_compute. reflexivity.
  - apply (bool_decide_unpack _). vm_compute. exact I.
  - vm_compute. reflexivity.
  - exact Hout.
  - exists m, sender. split; [exact H1|]. split; [exact H2|exact H3].
Defined.

(** ** Not found and not authorized *)

Lemma join_chat_refused (env : Env) (st : State) (sid : Str) (socket : Conn) (cid : Str) :
  sockets st !! sid = Some socket →
  canAccessChat (db st) (su_id (user socket)) cid = false →
  handle env st sid (JoinChat cid)
  = (st, [socket_emit sid (error (js "You are not a participant of this chat"))]).
Proof.
  intros Hsock Hacc. unfold handle, join_chat, chatParticipant_findUnique.
  unfold canAccessChat in Hacc. by rewrite Hsock, Hacc.
Qed.

Lemma send_dm_refused (env : Env) (st : State) (sid : Str) (socket : Conn) (cid c : Str) :
  sockets st !! sid = Some socket →
  content_missing c = false →
  canAccessChat (db st) (su_id (user socket)) cid = false →
  handle env st sid (SendDm cid c)
  = (st, [socket_emit sid (error (js "You are not a participant of this chat"))]).
Proof.
  intros Hsock Hc Hacc. unfold handle, send_dm, chatParticipant_findUnique.
  unfold canAccessChat in Hacc. by rewrite Hsock, Hc, Hacc.
Qed.

(** C4, as stated, fails for chats: [c9] is no chat of the store, and the
    error [join-chat] and [send-dm] emit for it is the not-a-participant
    error, of kind Unauthorized, the very error a stranger gets for the
    chat [c1] that exists.  (For rooms, content is validated before the
    room is looked up: blank content sent to the missing room [r9] gets
    the content-required error.) *)
Lemma missing_chat_is_reported_unauthorized :
  db_chats Sample.store !! js "c9" = None
  ∧ is_Some (db_chats Sample.store !! js "c1")
  ∧ handle Sample.env Sample.world (js "s3") (JoinChat (js "c9"))
    = (Sample.world,
       [socket_emit (js "s3") (error (js "You are not a participant of this chat"))])
  ∧ handle Sample.env Sample.world (js "s3") (SendDm (js "c9") (js "hello"))
    = (Sample.world,
       [socket_emit (js "s3") (error (js "You are not a participant of this chat"))])
  ∧ handle Sample.env Sample.world (js "s3") (JoinChat (js "c1"))
    = handle Sample.env Sample.world (js "s3") (JoinChat (js "c9"))
  ∧ error_kind (js "You are not a participant of this chat") = Some Unauthorized
  ∧ handle Sample.env Sample.world (js "s3") (SendMessage (js "r9") (js "   "))
    = (Sample.world, [socket_emit (js "s3") (error (js "Message content is required"))])
  ∧ ¬ (∀ env st sid socket cid message,
         sockets st !! sid = Some socket →
         db_chats (db st) !! cid = None →
         socket_emit sid (error message) ∈ (handle env st sid (JoinChat cid)).2 →
         error_kind message = Some NotFound).
Proof.
  assert (handle Sample.env Sample.world (js "s3") (JoinChat (js "c9"))
          = (Sample.world,
             [socket_emit (js "s3")
                (error (js "You are not a participant of this chat"))])) as Hjoin.
  { by apply (join_chat_refused _ _ _ Sample.carol). }
  split_and!.
  - by vm_compute.
  - apply (bool_decide_unpack _). by vm_compute.
  - exact Hjoin.
  - by apply (send_dm_refused _ _ _ Sample.carol).
  - rewrite Hjoin. by apply (join_chat_refused _ _ _ Sample.carol).
  - by vm_compute.
  - apply (send_message_missing_content _ _ _ Sample.carol); by vm_compute.
  - intros Hclaim.
    specialize (Hclaim Sample.env Sample.world (js "s3") Sample.carol (js "c9")
                  (js "You are not a participant of this chat")).
    rewrite Hjoin in Hclaim.
    assert (error_kind (js "You are not a participant of this chat") = Some NotFound)
      as Habs; [|by vm_compute in Habs].
    apply Hclaim; [by vm_compute..|]. simpl. left.
Qed.

(** C4, amended.  For rooms, [join-room] and [send-message] with content
    report a room id that names no room with the NotFound error, and a
    room the user may not access with an Unauthorized error.  For chats
    there is one answer: [join-chat] and [send-dm] with content report the
    Unauthorized not-a-participant error whenever the user has no
    participant row for the chat id, whether the chat exists or not. *)
Theorem not_found_distinct_for_rooms (env : Env) (st : State) (sid : Str)
    (socket : Conn) (c : Str) :
  sockets st !! sid = Some socket →
  ¬ whitespace_only c →
  let uid := su_id (user socket) in
  let only message := (st, [socket_emit sid (error message)]) in
  (∀ rid,
     db_rooms (db st) !! rid = None →
     handle env st sid (JoinRoom rid) = only (js "Room not found")
     ∧ handle env st sid (SendMessage rid c) = only (js "Room not found"))
  ∧ (∀ rid r p,
       db_rooms (db st) !! rid = Some r →
       db_pods (db st) !! room_podId r = Some p →
       canAccessRoom (db st) uid rid = false →
       handle env st sid (JoinRoom rid)
       = only (js "You must be a member of this pod to join this room")
       ∧ handle env st sid (SendMessage rid c)
         = only (js "You must be a member of this pod to send messages"))
  ∧ (∀ cid,
       canAccessChat (db st) uid cid = false →
       handle env st sid (JoinChat cid)
       = only (js "You are not a participant of this chat")
       ∧ handle env st sid (SendDm cid c)
         = only (js "You are not a participant of this chat"))
  ∧ error_kind (js "Room not found") = Some NotFound
  ∧ error_kind (js "You must be a member of this pod to join this room")
    = Some Unauthorized
  ∧ error_kind (js "You must be a member of this pod to send messages")
    = Some Unauthorized
  ∧ error_kind (js "You are not a participant of this chat") = Some Unauthorized.
Proof.
  intros Hsock Hc%content_present_spec uid only. subst uid only.
  split_and!; [| | |done..].
  - intros rid Hroom. unfold handle, join_room, send_message, room_findUnique.
    by rewrite Hsock, Hc, Hroom.
  - intros rid r p Hr Hp Hacc.
    split; [by apply (join_room_refused env st sid socket rid r p)|].
    unfold handle, send_message. rewrite Hsock, Hc.
    destruct (canAccessRoom_false _ _ _ Hacc) as [Hf|[Hf|(r' & p' & Hf & Hgate)]].
    + unfold room_findUnique in Hf. by rewrite Hr, Hp in Hf.
    + unfold room_findUnique in Hf. by rewrite Hr, Hp in Hf.
    + by rewrite Hf, Hgate.
  - intros cid Hacc.
    by rewrite (join_chat_refused env st sid socket), (send_dm_refused env st sid socket).
Qed.

Lemma not_found_distinct_for_rooms_witness :
  handle Sample.env Sample.world (js "s3") (JoinRoom (js "r9"))
  = (Sample.world, [socket_emit (js "s3") (error (js "Room not found"))])
  ∧ handle Sample.env Sample.world (js "s3") (SendMessage (js "r1") (js "hello"))
    = (Sample.world,
       [socket_emit (js "s3")
          (error (js "You must be a member of this pod to send messages"))]).
Proof.
  destruct (not_found_distinct_for_rooms Sample.env Sample.world (js "s3")
              Sample.carol (js "hello")) as (Hmissing & Hrefused & _).
  - vm_compute. reflexivity.
  - apply (bool_decide_unpack _). vm_compute. exact I.
  - split.
    + apply (Hmissing (js "r9")). vm_compute. reflexivity.
    + apply (Hrefused (js "r1") {| room_podId := js "p1" |}
               {| pod_ownerId := js "alice" |}); vm_compute; reflexivity.
Defined.

(** ** Joining twice *)

(** C6, as stated, fails: [alice] joins [r1] twice in a row while [bob]'s
    socket [s2] is in [r1]; both joins are acknowledged, and the second
    one emits [user-joined] to the room again, which [s2] receives. *)
Lemma second_join_broadcasts_again :
  let res1 := handle Sample.env Sample.world (js "s1") (JoinRoom (js "r1")) in
  let res2 := handle Sample.env res1.1 (js "s1") (JoinRoom (js "r1")) in
  let joined_event :=
    socket_to (js "s1") (js "r1")
      (user_joined (presence_user (user Sample.alice)) (now Sample.env)) in
  let ack := socket_emit (js "s1") (room_joined (js "r1") (js "Successfully joined room")) in
  res1.2 = [joined_event; ack]
  ∧ res2.2 = [joined_event; ack]
  ∧ js "s2" ≠ js "s1"
  ∧ js "s2" ∈ recipients (sockets res1.1) joined_event
  ∧ js "s2" ∈ recipients (sockets res2.1) joined_event.
Proof.
  cbv zeta. split_and!.
  - by vm_compute.
  - by vm_compute.
  - by vm_compute.
  - apply (bool_decide_unpack _). by vm_compute.
  - apply (bool_decide_unpack _). by vm_compute.
Qed.

Lemma socket_join_idempotent (socket : Conn) (rid : Str) :
  set_currentRoom
    (socket_join (set_currentRoom (socket_join socket rid) (Some rid)) rid) (Some rid)
  = set_currentRoom (socket_join socket rid) (Some rid).
Proof.
  unfold set_currentRoom, socket_join. simpl. f_equal.
  apply set_eq. intros x. rewrite !elem_of_union. tauto.
Qed.

Lemma canAccessRoom_set_socket (st : State) (sid : Str) (socket : Conn) (uid rid : Str) :
  canAccessRoom (db (set_socket st sid socket)) uid rid = canAccessRoom (db st) uid rid.
Proof. done. Qed.

(** C6, amended.  Two [join-room] calls for the same room in a row, from a
    socket whose user the pod accepts: each is acknowledged to the joiner
    with [room-joined], the state after the second is the state after the
    first (one membership of the channel, the room active), and each
    emits [user-joined] to the sockets joined to the room other than the
    joiner, so these receive it twice. *)
Theorem join_room_twice (env1 env2 : Env) (st : State) (sid : Str) (socket : Conn)
    (rid : Str) :
  sockets st !! sid = Some socket →
  canAccessRoom (db st) (su_id (user socket)) rid = true →
  let res1 := handle env1 st sid (JoinRoom rid) in
  let res2 := handle env2 res1.1 sid (JoinRoom rid) in
  let joined_event env :=
    socket_to sid rid (user_joined (presence_user (user socket)) (now env)) in
  let ack := socket_emit sid (room_joined rid (js "Successfully joined room")) in
  res1.2 = [joined_event env1; ack]
  ∧ res2.2 = [joined_event env2; ack]
  ∧ res2.1 = res1.1
  ∧ (∃ socket', sockets res2.1 !! sid = Some socket'
                ∧ rooms socket' = rooms socket ∪ {[rid]}
                ∧ currentRoom socket' = Some rid)
  ∧ (∀ s, s ∈ recipients (sockets res1.1) (joined_event env1)
          ↔ s ≠ sid ∧ ∃ other, sockets st !! s = Some other ∧ rid ∈ rooms other)
  ∧ (∀ s, s ∈ recipients (sockets res2.1) (joined_event env2)
          ↔ s ≠ sid ∧ ∃ other, sockets st !! s = Some other ∧ rid ∈ rooms other).
Proof.
  intros Hsock Hacc res1 res2 joined_event ack.
  assert (res1 = (set_socket st sid (set_currentRoom (socket_join socket rid) (Some rid)),
                  [joined_event env1; ack])) as H1.
  { by apply join_room_allowed. }
  assert (res2 = (res1.1, [joined_event env2; ack])) as H2.
  { subst res2. rewrite H1. cbn [fst].
    rewrite (join_room_allowed env2 _ sid
               (set_currentRoom (socket_join socket rid) (Some rid)) rid).
    - rewrite socket_join_idempotent. unfold set_socket. simpl.
      by rewrite insert_insert_eq.
    - apply lookup_insert_eq.
    - done. }
  assert (∀ s, s ∈ joined (sockets res1.1) rid ∖ {[sid]}
               ↔ s ≠ sid ∧ ∃ other, sockets st !! s = Some other ∧ rid ∈ rooms other)
    as Hothers.
  { intros s. rewrite H1. cbn [fst set_socket sockets].
    rewrite elem_of_difference, elem_of_joined, elem_of_singleton.
    split; intros [(other & Hother & Hin) Hne] || intros [Hne (other & Hother & Hin)].
    - rewrite lookup_insert_ne in Hother by done. eauto.
    - split; [|done]. exists other. by rewrite lookup_insert_ne. }
  rewrite H2. cbn [fst snd]. split_and!; [by rewrite H1|done|done| |done|done].
  rewrite H1. cbn [fst set_socket sockets]. eexists. split; [apply lookup_insert_eq|done].
Qed.

Lemma join_room_twice_witness :
  let res1 := handle Sample.env Sample.world (js "s1") (JoinRoom (js "r1")) in
  let res2 := handle Sample.env res1.1 (js "s1") (JoinRoom (js "r1")) in
  res2.1 = res1.1
  ∧ res2.2 = res1.2.
Proof.
  destruct (join_room_twice Sample.env Sample.env Sample.world (js "s1")
              Sample.alice (js "r1")) as (H1 & H2 & H3 & _).
  - vm_compute. reflexivity.
  - vm_compute. reflexivity.
  - split; [exact H3|]. exact (eq_trans H2 (eq_sym H1)).
Defined.

(** * Further properties of the gateway *)

(** Case analysis over the branches of one handler run. *)
Ltac handler_cases :=
  unfold handle, join_room, leave_room, send_message, typing_start, typing_stop,
    join_chat, leave_chat, send_dm, dm_typing_start, dm_typing_stop,
    join_notifications, disconnect in *;
  repeat case_match; simplify_eq/=.

(** X1. Whatever the event, an [error] event is only ever emitted with
    [socket.emit] on the socket that sent the event: errors are never
    broadcast. *)
Theorem errors_only_to_sender (env : Env) (st : State) (sid : Str) (ev : ClientEvent)
    (e : Emission) (message : Str) :
  e ∈ (handle env st sid ev).2 →
  emitted_event e = error message →
  e = socket_emit sid (error message).
Proof.
  intros Hin Hev. handler_cases;
    repeat match goal with
           | H : _ ∈ [] |- _ => by apply elem_of_nil in H
           | H : _ ∈ _ :: _ |- _ => apply elem_of_cons in H as [->|H]
           end; simpl in *; try done; congruence.
Qed.

Lemma errors_only_to_sender_witness :
  socket_emit (js "s3") (error (js "Room not found"))
  = socket_emit (js "s3") (error (js "Room not found")).
Proof.
  apply (errors_only_to_sender Sample.env Sample.world (js "s3") (JoinRoom (js "r9"))).
  - vm_compute. left.
  - reflexivity.
Defined.

(** X2. An event of one socket leaves every other socket as it was: its
    channels, its active room and its identity. *)
Theorem other_sockets_untouched (env : Env) (st : State) (sid other : Str)
    (ev : ClientEvent) :
  other ≠ sid →
  sockets (handle env st sid ev).1 !! other = sockets st !! other.
Proof.
  intros Hne. handler_cases;
    rewrite ?lookup_insert_ne, ?lookup_delete_ne by done; done.
Qed.

Lemma other_sockets_untouched_witness :
  sockets (handle Sample.env Sample.world (js "s1") (JoinRoom (js "r1"))).1 !! js "s2"
  = sockets Sample.world !! js "s2".
Proof.
  apply (other_sockets_untouched Sample.env Sample.world (js "s1") (js "s2")).
  vm_compute. discriminate.
Defined.

(** X3. The identity attached at the handshake is never changed: after any
    event but the disconnect the socket is still held, with the same
    [socket.user]. *)
Theorem identity_is_immutable (env : Env) (st : State) (sid : Str) (socket : Conn)
    (ev : ClientEvent) :
  sockets st !! sid = Some socket →
  ev ≠ Disconnect →
  ∃ socket', sockets (handle env st sid ev).1 !! sid = Some socket'
             ∧ user socket' = user socket.
Proof.
  intros Hsock Hev. handler_cases; rewrite ?lookup_insert_eq; eauto.
Qed.

Lemma identity_is_immutable_witness :
  ∃ socket', sockets (handle Sample.env Sample.world (js "s1") (JoinRoom (js "r1"))).1
               !! js "s1" = Some socket'
             ∧ user socket' = user Sample.alice.
Proof.
  apply (identity_is_immutable Sample.env Sample.world (js "s1") Sample.alice).
  - vm_compute. reflexivity.
  - discriminate.
Defined.

Lemma non_send_keeps_db (env : Env) (st : State) (sid : Str) (ev : ClientEvent) :
  is_send ev = false → db (handle env st sid ev).1 = db st.
Proof. intros Hev. by handler_cases. Qed.

(** X4. Only [send-message] and [send-dm] write to the store: every other
    event leaves it as it was. *)
Theorem only_sends_write (env : Env) (st : State) (sid : Str) (ev : ClientEvent) :
  is_send ev = false →
  db (handle env st sid ev).1 = db st.
Proof. apply non_send_keeps_db. Qed.

Lemma only_sends_write_witness :
  db (handle Sample.env Sample.world (js "s2") Disconnect).1 = db Sample.world.
Proof.
  apply (only_sends_write Sample.env Sample.world (js "s2") Disconnect). reflexivity.
Defined.

Lemma handle_store_frame (env : Env) (st : State) (sid : Str) (ev : ClientEvent) :
  let d := db st in
  let d' := db (handle env st sid ev).1 in
  db_users d' = db_users d
  ∧ db_pods d' = db_pods d
  ∧ db_podMembers d' = db_podMembers d
  ∧ db_rooms d' = db_rooms d
  ∧ db_chatParticipants d' = db_chatParticipants d
  ∧ dom (db_chats d') = dom (db_chats d)
  ∧ db_messages d ⊆ db_messages d'.
Proof.
  cbv zeta. handler_cases; split_and!; try done;
    unfold message_create, chat_update in *; repeat case_match; simplify_eq/=;
    try done;
    try (apply insert_subseteq; done);
    try (rewrite dom_insert_L; apply (anti_symm (⊆)); [|set_solver];
         apply union_subseteq; split; [|done];
         apply singleton_subseteq_l, elem_of_dom; eauto).
Qed.

(** X5. The gateway never edits or deletes: whatever the event, the user,
    pod, membership, room and participant tables are unchanged, no chat
    appears or disappears, and every message row that was stored is still
    stored, unchanged. *)
Theorem store_is_append_only (env : Env) (st : State) (sid : Str) (ev : ClientEvent) :
  let d := db st in
  let d' := db (handle env st sid ev).1 in
  db_users d' = db_users d
  ∧ db_pods d' = db_pods d
  ∧ db_podMembers d' = db_podMembers d
  ∧ db_rooms d' = db_rooms d
  ∧ db_chatParticipants d' = db_chatParticipants d
  ∧ dom (db_chats d') = dom (db_chats d)
  ∧ db_messages d ⊆ db_messages d'.
Proof. apply handle_store_frame. Qed.

(** ** What the gateway stores *)

Lemma trimStart_keeps_last (s : Str) :
  trimStart s ≠ [] → last (trimStart s) = last s.
Proof.
  induction s as [|x s IH]; simpl; [done|].
  destruct (is_white_space x); [|done].
  intros Hne. rewrite IH by done. destruct s; [done|]. by rewrite last_cons_cons.
Qed.

Lemma content_trimmed_spec (c : Str) :
  content_trimmed c = true
  ↔ ∃ x y, head c = Some x ∧ last c = Some y
           ∧ is_white_space x = false ∧ is_white_space y = false.
Proof.
  unfold content_trimmed. destruct c as [|x c]; simpl head.
  - split; [done|]. by intros (? & ? & ? & _).
  - destruct (last (x :: c)) as [y|].
    + rewrite andb_true_iff, !negb_true_iff. split.
      * intros [? ?]. by exists x, y.
      * intros (? & ? & ? & ? & ? & ?). simplify_eq/=. auto.
    + split; [done|]. by intros (? & ? & _ & ? & _).
Qed.

(** What [trim] returns is empty or starts and ends with a character that
    is no white space. *)
Lemma trim_trimmed (c : Str) : trim c ≠ [] → content_trimmed (trim c) = true.
Proof.
  unfold trim, trimEnd. intros Hne.
  set (t := trimStart c) in *. set (u := trimStart (reverse t)) in *.
  assert (u ≠ []) as Hu by (intros Hu; by rewrite Hu in Hne).
  assert (t ≠ []) as Ht by (intros Ht; subst u; by rewrite Ht in Hu).
  apply content_trimmed_spec.
  pose proof (trimStart_head (reverse t)) as Hhu. fold u in Hhu.
  pose proof (trimStart_head c) as Hht. fold t in Hht.
  destruct u as [|y u'] eqn:Heu; [done|]. destruct t as [|x t'] eqn:Het; [done|].
  exists x, y. split_and!; [|by rewrite last_reverse|done..].
  rewrite head_reverse, <-Heu. subst u.
  rewrite trimStart_keeps_last by (by rewrite Heu).
  by rewrite last_reverse.
Qed.

Lemma content_present_trim (c : Str) : content_missing c = false → trim c ≠ [].
Proof.
  unfold content_missing. intros [_ Htr]%orb_false_iff.
  apply negb_false_iff in Htr. by destruct (trim c).
Qed.

Lemma send_message_throw (env : Env) (st : State) (sid : Str) (socket : Conn)
    (rid c : Str) :
  sockets st !! sid = Some socket →
  content_missing c = false →
  canAccessRoom (db st) (su_id (user socket)) rid = true →
  message_create env (db st)
    {| data_content := trim c; data_roomId := Some rid; data_chatId := None;
       data_senderId := su_id (user socket) |} = Throw →
  handle env st sid (SendMessage rid c)
  = (st, [socket_emit sid (error (js "Failed to send message"))]).
Proof.
  intros Hsock Hc (r & p & Hfind & Hgate)%canAccessRoom_true Hthrow.
  unfold handle, send_message. by rewrite Hsock, Hc, Hfind, Hgate, Hthrow.
Qed.

Lemma send_dm_throw (env : Env) (st : State) (sid : Str) (socket : Conn)
    (cid c : Str) :
  sockets st !! sid = Some socket →
  content_missing c = false →
  canAccessChat (db st) (su_id (user socket)) cid = true →
  message_create env (db st)
    {| data_content := trim c; data_roomId := None; data_chatId := Some cid;
       data_senderId := su_id (user socket) |} = Throw →
  handle env st sid (SendDm cid c)
  = (st, [socket_emit sid (error (js "Failed to send message"))]).
Proof.
  intros Hsock Hc Hacc Hthrow. unfold canAccessChat in Hacc.
  unfold handle, send_dm, chatParticipant_findUnique.
  by rewrite Hsock, Hc, Hacc, Hthrow.
Qed.

Lemma message_create_throws (env : Env) (d : Db) (data : MessageData) :
  db_users d !! data_senderId data = None
  ∨ is_Some (db_messages d !! fresh_id env) →
  message_create env d data = Throw.
Proof.
  unfold message_create. intros [->|[row ->]]; [done|].
  by destruct (db_users d !! data_senderId data).
Qed.

Lemma written_row_checked (env : Env) (st : State) (sid : Str) (socket : Conn)
    (ev : ClientEvent) (id : Str) (row : MessageRow) :
  sockets st !! sid = Some socket →
  db_messages (db st) !! id = None →
  db_messages (db (handle env st sid ev).1) !! id = Some row →
  let uid := su_id (user socket) in
  id = fresh_id env
  ∧ senderId row = uid
  ∧ createdAt row = now env
  ∧ content_trimmed (content row) = true
  ∧ is_Some (db_users (db st) !! uid)
  ∧ ((∃ rid c, ev = SendMessage rid c ∧ content row = trim c
               ∧ roomId row = Some rid ∧ chatId row = None
               ∧ canAccessRoom (db st) uid rid = true)
     ∨ (∃ cid c, ev = SendDm cid c ∧ content row = trim c
                 ∧ roomId row = None ∧ chatId row = Some cid
                 ∧ canAccessChat (db st) uid cid = true
                 ∧ is_Some (db_chats (db st) !! cid))).
Proof.
  intros Hsock Hold Hnew uid. subst uid.
  destruct (is_send ev) eqn:Hsend.
  2:{ rewrite non_send_keeps_db in Hnew by done. congruence. }
  destruct ev; try discriminate Hsend; clear Hsend.
  - destruct (content_missing c) eqn:Hc.
    { rewrite (send_message_missing_content env st sid socket) in Hnew by done.
      simpl in Hnew. congruence. }
    destruct (canAccessRoom (db st) (su_id (user socket)) rid) eqn:Hacc.
    2:{ destruct (send_message_rejected env st sid socket rid c Hsock Hacc) as [m Hm].
        rewrite Hm in Hnew. simpl in Hnew. congruence. }
    destruct (db_users (db st) !! su_id (user socket)) as [u|] eqn:Hu.
    2:{ rewrite (send_message_throw env st sid socket) in Hnew; [| done..|].
        - simpl in Hnew. congruence.
        - apply message_create_throws. by left. }
    destruct (db_messages (db st) !! fresh_id env) as [taken|] eqn:Hfresh.
    { rewrite (send_message_throw env st sid socket) in Hnew; [| done..|].
      - simpl in Hnew. congruence.
      - apply message_create_throws. right. by rewrite Hfresh. }
    rewrite (send_message_ok env st sid socket rid c u) in Hnew by done.
    simpl in Hnew.
    destruct (decide (fresh_id env = id)) as [<-|Hne];
      [|rewrite lookup_insert_ne in Hnew by done; congruence].
    rewrite lookup_insert_eq in Hnew. injection Hnew as <-. simpl.
    split_and!; try done.
    + by apply trim_trimmed, content_present_trim.
    + left. by exists rid, c.
  - destruct (content_missing c) eqn:Hc.
    { rewrite (send_dm_missing_content env st sid socket) in Hnew by done.
      simpl in Hnew. congruence. }
    destruct (canAccessChat (db st) (su_id (user socket)) cid) eqn:Hacc.
    2:{ destruct (send_dm_rejected env st sid socket cid c Hsock (or_intror Hacc))
          as [m Hm].
        rewrite Hm in Hnew. simpl in Hnew. congruence. }
    destruct (db_chats (db st) !! cid) as [ch|] eqn:Hchat.
    2:{ destruct (send_dm_rejected env st sid socket cid c Hsock (or_introl Hchat))
          as [m Hm].
        rewrite Hm in Hnew. simpl in Hnew. congruence. }
    destruct (db_users (db st) !! su_id (user socket)) as [u|] eqn:Hu.
    2:{ rewrite (send_dm_throw env st sid socket) in Hnew; [| done..|].
        - simpl in Hnew. congruence.
        - apply message_create_throws. by left. }
    destruct (db_messages (db st) !! fresh_id env) as [taken|] eqn:Hfresh.
    { rewrite (send_dm_throw env st sid socket) in Hnew; [| done..|].
      - simpl in Hnew. congruence.
      - apply message_create_throws. right. by rewrite Hfresh. }
    rewrite (send_dm_ok env st sid socket cid c u) in Hnew by eauto.
    simpl in Hnew.
    destruct (decide (fresh_id env = id)) as [<-|Hne];
      [|rewrite lookup_insert_ne in Hnew by done; congruence].
    rewrite lookup_insert_eq in Hnew. injection Hnew as <-. simpl.
    split_and!; try done.
    + by apply trim_trimmed, content_present_trim.
    + right. exists cid, c. by rewrite Hchat.
Qed.

(** X6. Every row the gateway adds to the message table meets what a send
    checks: it is stored under the generated key and stamped with the
    clock, its sender is the socket's user, its content is the trimmed
    input, non-empty and without white space at either end, and it
    belongs to one room the sender may access, or to one chat of the
    store that the sender is a participant of, never to both. *)
Theorem stored_message_was_checked (env : Env) (st : State) (sid : Str) (socket : Conn)
    (ev : ClientEvent) (id : Str) (row : MessageRow) :
  sockets st !! sid = Some socket →
  db_messages (db st) !! id = None →
  db_messages (db (handle env st sid ev).1) !! id = Some row →
  let uid := su_id (user socket) in
  id = fresh_id env
  ∧ senderId row = uid
  ∧ createdAt row = now env
  ∧ content_trimmed (content row) = true
  ∧ is_Some (db_users (db st) !! uid)
  ∧ ((∃ rid c, ev = SendMessage rid c ∧ content row = trim c
               ∧ roomId row = Some rid ∧ chatId row = None
               ∧ canAccessRoom (db st) uid rid = true)
     ∨ (∃ cid c, ev = SendDm cid c ∧ content row = trim c
                 ∧ roomId row = None ∧ chatId row = Some cid
                 ∧ canAccessChat (db st) uid cid = true
                 ∧ is_Some (db_chats (db st) !! cid))).
Proof. apply written_row_checked. Qed.

Lemma stored_message_was_checked_witness :
  let row := {| content := js "hello"; roomId := Some (js "r1"); chatId := None;
                senderId := js "bob"; createdAt := 11 |} in
  js "m11" = fresh_id Sample.env
  ∧ content_trimmed (content row) = true
  ∧ canAccessRoom Sample.store (js "bob") (js "r1") = true.
Proof.
  intros row.
  destruct (stored_message_was_checked Sample.env Sample.world (js "s2") Sample.bob
              (SendMessage (js "r1") (js "  hello ")) (js "m11") row)
    as (H1 & _ & _ & H2 & _ & H3).
  - vm_compute. reflexivity.
  - vm_compute. reflexivity.
  - vm_compute. reflexivity.
  - split; [exact H1|]. split; [exact H2|].
    destruct H3 as [(rid & c & Hev & _ & Hroom & _ & Hacc)|(cid & c & Hev & _)].
    + injection Hev as <- <-. exact Hacc.
    + discriminate Hev.
Defined.

Lemma message_ok_frame (d d' : Db) (row : MessageRow) :
  db_users d' = db_users d → db_rooms d' = db_rooms d →
  dom (db_chats d') = dom (db_chats d) →
  message_ok d' row = message_ok d row.
Proof.
  intros Hu Hr Hc. unfold message_ok. rewrite Hu, Hr. do 2 f_equal.
  destruct (roomId row), (chatId row); try done.
  apply bool_decide_ext. by rewrite <-!elem_of_dom, Hc.
Qed.

(** X7. The gateway keeps the message table well formed: if every stored
    message has trimmed non-empty content, a sender the store knows and
    exactly one of a room and a chat that the store knows, the same holds
    after any event. *)
Theorem store_ok_preserved (env : Env) (st : State) (sid : Str) (ev : ClientEvent) :
  store_ok (db st) → store_ok (db (handle env st sid ev).1).
Proof.
  intros Hok id row Hnew.
  pose proof (handle_store_frame env st sid ev) as (Hu & _ & _ & Hr & _ & Hc & Hsub).
  cbv zeta in *. rewrite (message_ok_frame (db st)) by done.
  destruct (db_messages (db st) !! id) as [row0|] eqn:Hold.
  - pose proof (lookup_weaken _ _ _ _ Hold Hsub) as Hnew'.
    assert (row = row0) as -> by congruence. by apply (Hok id).
  - destruct (sockets st !! sid) as [socket|] eqn:Hsock.
    2:{ unfold handle in Hnew. rewrite Hsock in Hnew. simpl in Hnew. congruence. }
    destruct (written_row_checked env st sid socket ev id row Hsock Hold Hnew)
      as (_ & Hsender & _ & Htrim & Huser & Htarget).
    unfold message_ok. rewrite Htrim, Hsender, bool_decide_eq_true_2 by done. simpl.
    destruct Htarget as [(rid & c & _ & _ & -> & -> & Hacc)
                        |(cid & c & _ & _ & -> & -> & _ & Hchat)].
    + apply bool_decide_eq_true. unfold canAccessRoom in Hacc.
      by destruct (db_rooms (db st) !! rid).
    + by apply bool_decide_eq_true.
Qed.

Lemma store_ok_preserved_witness :
  store_ok Sample.store
  ∧ store_ok (db (handle Sample.env Sample.world (js "s2")
                    (SendMessage (js "r1") (js " hello "))).1).
Proof.
  assert (store_ok Sample.store) as Hok.
  { apply (bool_decide_unpack _). vm_compute. exact I. }
  split; [exact Hok|].
  apply (store_ok_preserved Sample.env Sample.world). exact Hok.
Defined.

(** X8. A send that passes the checks but that the store rejects (the
    sender's row is gone, or the generated key is taken) is answered with
    the generic failure, to the sender alone, and nothing is stored. *)
Theorem store_rejection_is_reported (env : Env) (st : State) (sid : Str) (socket : Conn)
    (c : Str) :
  sockets st !! sid = Some socket →
  ¬ whitespace_only c →
  let uid := su_id (user socket) in
  db_users (db st) !! uid = None ∨ is_Some (db_messages (db st) !! fresh_id env) →
  error_kind (js "Failed to send message") = Some Internal
  ∧ (∀ rid,
       canAccessRoom (db st) uid rid = true →
       handle env st sid (SendMessage rid c)
       = (st, [socket_emit sid (error (js "Failed to send message"))]))
  ∧ (∀ cid,
       canAccessChat (db st) uid cid = true →
       handle env st sid (SendDm cid c)
       = (st, [socket_emit sid (error (js "Failed to send message"))])).
Proof.
  intros Hsock Hc%content_present_spec uid Hrej. split_and!; [done| |].
  - intros rid Hacc. apply (send_message_throw env st sid socket); [done..|].
    by apply message_create_throws.
  - intros cid Hacc. apply (send_dm_throw env st sid socket); [done..|].
    by apply message_create_throws.
Qed.

Lemma store_rejection_is_reported_witness :
  handle {| now := 11; fresh_id := js "m01" |} Sample.world (js "s2")
    (SendMessage (js "r1") (js "hello"))
  = (Sample.world, [socket_emit (js "s2") (error (js "Failed to send message"))]).
Proof.
  destruct (store_rejection_is_reported {| now := 11; fresh_id := js "m01" |}
              Sample.world (js "s2") Sample.bob (js "hello")) as (_ & Hroom & _).
  - vm_compute. reflexivity.
  - apply (bool_decide_unpack _). vm_compute. exact I.
  - right. apply (bool_decide_unpack _). vm_compute. exact I.
  - apply Hroom. vm_compute. reflexivity.
Defined.

(** ** Presence and typing *)

Lemma elem_of_recipients_socket_to (conns : gmap Str Conn) (sid channel s : Str)
    (ev : ServerEvent) :
  s ∈ recipients conns (socket_to sid channel ev)
  ↔ s ≠ sid ∧ ∃ other, conns !! s = Some other ∧ channel ∈ rooms other.
Proof.
  simpl. rewrite elem_of_difference, elem_of_joined, elem_of_singleton. tauto.
Qed.

Lemma joined_set_socket_others (st : State) (sid : Str) (socket : Conn) (channel s : Str) :
  s ≠ sid →
  s ∈ joined (sockets (set_socket st sid socket)) channel ↔ s ∈ joined (sockets st) channel.
Proof.
  intros Hne. rewrite !elem_of_joined. simpl. by rewrite lookup_insert_ne.
Qed.

(** X9. A typing signal for the socket's active room is one emission,
    delivered to exactly the other sockets joined to the room; for any
    other room nothing is emitted.  Either way no state changes. *)
Theorem typing_reaches_other_occupants (env : Env) (st : State) (sid : Str)
    (socket : Conn) (rid : Str) :
  sockets st !! sid = Some socket →
  let u := user_ref (user socket) in
  (currentRoom socket = Some rid →
     handle env st sid (TypingStart rid) = (st, [socket_to sid rid (user_typing u rid)])
     ∧ handle env st sid (TypingStop rid)
       = (st, [socket_to sid rid (user_stopped_typing u rid)])
     ∧ ∀ s ev, s ∈ recipients (sockets st) (socket_to sid rid ev)
               ↔ s ≠ sid ∧ ∃ other, sockets st !! s = Some other ∧ rid ∈ rooms other)
  ∧ (currentRoom socket ≠ Some rid →
       handle env st sid (TypingStart rid) = (st, [])
       ∧ handle env st sid (TypingStop rid) = (st, [])).
Proof.
  intros Hsock u. unfold handle, typing_start, typing_stop. rewrite Hsock. split.
  - intros Hcur. rewrite bool_decide_eq_true_2 by done. split_and!; [done..|].
    intros s ev. apply elem_of_recipients_socket_to.
  - intros Hcur. by rewrite bool_decide_eq_false_2.
Qed.

Lemma typing_reaches_other_occupants_witness :
  handle Sample.env Sample.world (js "s2") (TypingStart (js "r1"))
  = (Sample.world,
     [socket_to (js "s2") (js "r1")
        (user_typing (user_ref (user Sample.bob)) (js "r1"))])
  ∧ handle Sample.env Sample.world (js "s1") (TypingStart (js "r1")) = (Sample.world, []).
Proof.
  split.
  - destruct (typing_reaches_other_occupants Sample.env Sample.world (js "s2")
                Sample.bob (js "r1")) as [Hactive _].
    + vm_compute. reflexivity.
    + apply Hactive. reflexivity.
  - destruct (typing_reaches_other_occupants Sample.env Sample.world (js "s1")
                Sample.alice (js "r1")) as [_ Hother].
    + vm_compute. reflexivity.
    + apply Hother. discriminate.
Defined.

(** X10. Typing signals for chats are not gated: a user whom [join-chat]
    refuses as no participant still has [dm-typing-start] and
    [dm-typing-stop] delivered to every other socket joined to the chat's
    channel. *)
Theorem dm_typing_is_not_gated (env : Env) (st : State) (sid : Str) (socket : Conn)
    (cid : Str) :
  sockets st !! sid = Some socket →
  canAccessChat (db st) (su_id (user socket)) cid = false →
  let u := user_ref (user socket) in
  handle env st sid (JoinChat cid)
  = (st, [socket_emit sid (error (js "You are not a participant of this chat"))])
  ∧ handle env st sid (DmTypingStart cid)
    = (st, [socket_to sid (chat_channel cid) (dm_user_typing u cid)])
  ∧ handle env st sid (DmTypingStop cid)
    = (st, [socket_to sid (chat_channel cid) (dm_user_stopped_typing u cid)])
  ∧ ∀ s ev, s ∈ recipients (sockets st) (socket_to sid (chat_channel cid) ev)
            ↔ s ≠ sid ∧ ∃ other, sockets st !! s = Some other
                                 ∧ chat_channel cid ∈ rooms other.
Proof.
  intros Hsock Hacc u. split_and!.
  - by apply (join_chat_refused env st sid socket).
  - unfold handle. by rewrite Hsock.
  - unfold handle. by rewrite Hsock.
  - intros s ev. apply elem_of_recipients_socket_to.
Qed.

Lemma dm_typing_is_not_gated_witness :
  handle Sample.env Sample.world (js "s3") (JoinChat (js "c1"))
  = (Sample.world,
     [socket_emit (js "s3") (error (js "You are not a participant of this chat"))])
  ∧ handle Sample.env Sample.world (js "s3") (DmTypingStart (js "c1"))
    = (Sample.world,
       [socket_to (js "s3") (chat_channel (js "c1"))
          (dm_user_typing (user_ref (user Sample.carol)) (js "c1"))]).
Proof.
  destruct (dm_typing_is_not_gated Sample.env Sample.world (js "s3") Sample.carol
              (js "c1")) as (H1 & H2 & _).
  - vm_compute. reflexivity.
  - vm_compute. reflexivity.
  - split; [exact H1|exact H2].
Defined.

(** ** Leaving, switching and disconnecting *)

(** X11. [leave-room] for the active room detaches the socket from the
    room's channel and clears the active room; [user-left] is delivered
    to exactly the other sockets joined to the room, [room-left] to the
    leaver, and the store is unchanged. *)
Theorem leave_active_room (env : Env) (st : State) (sid : Str) (socket : Conn)
    (rid : Str) :
  sockets st !! sid = Some socket →
  currentRoom socket = Some rid →
  let res := handle env st sid (LeaveRoom rid) in
  let left := socket_to sid rid (user_left (user_ref (user socket)) (now env)) in
  res.2 = [left; socket_emit sid (room_left rid (js "Successfully left room"))]
  ∧ db res.1 = db st
  ∧ (∃ socket', sockets res.1 !! sid = Some socket'
                ∧ rooms socket' = rooms socket ∖ {[rid]}
                ∧ currentRoom socket' = None)
  ∧ (sid ∉ joined (sockets res.1) rid)
  ∧ ∀ s, s ∈ recipients (sockets res.1) left
         ↔ s ≠ sid ∧ ∃ other, sockets st !! s = Some other ∧ rid ∈ rooms other.
Proof.
  intros Hsock Hcur res left. subst res left. unfold handle, leave_room.
  rewrite Hsock, bool_decide_eq_true_2 by done. cbn [fst snd]. split_and!; [done..| | |].
  - eexists. split; [apply lookup_insert_eq|done].
  - rewrite elem_of_joined. simpl. rewrite lookup_insert_eq.
    intros (socket' & [= <-] & Hin). simpl in Hin.
    apply elem_of_difference in Hin as [_ Hn]. by apply Hn, elem_of_singleton.
  - intros s. rewrite elem_of_recipients_socket_to. simpl.
    split; intros [Hne (other & Hother & Hin)]; (split; [done|]); exists other.
    + by rewrite lookup_insert_ne in Hother.
    + by rewrite lookup_insert_ne.
Qed.

Lemma leave_active_room_witness :
  let res := handle Sample.env Sample.world (js "s2") (LeaveRoom (js "r1")) in
  db res.1 = db Sample.world ∧ (js "s2" ∉ joined (sockets res.1) (js "r1")).
Proof.
  destruct (leave_active_room Sample.env Sample.world (js "s2") Sample.bob (js "r1"))
    as (_ & H1 & _ & H2 & _).
  - vm_compute. reflexivity.
  - reflexivity.
  - split; [exact H1|exact H2].
Defined.

Lemma set_socket_same (st : State) (sid : Str) (socket : Conn) :
  sockets st !! sid = Some socket → set_socket st sid socket = st.
Proof.
  intros Hsock. unfold set_socket. rewrite insert_id by done. by destruct st.
Qed.

Lemma set_socket_twice (st : State) (sid : Str) (a b : Conn) :
  set_socket (set_socket st sid a) sid b = set_socket st sid b.
Proof. unfold set_socket. simpl. by rewrite insert_insert_eq. Qed.

Lemma conn_eq (a b : Conn) :
  user a = user b → rooms a = rooms b → currentRoom a = currentRoom b → a = b.
Proof. destruct a, b. simpl. by intros -> -> ->. Qed.

(** X12. Joining a room and leaving it again is a round trip: for a socket
    that was not joined to the room's channel and had no active room, the
    gateway state after [join-room] then [leave-room] is the state
    before. *)
Theorem join_then_leave_restores (env1 env2 : Env) (st : State) (sid : Str)
    (socket : Conn) (rid : Str) :
  sockets st !! sid = Some socket →
  canAccessRoom (db st) (su_id (user socket)) rid = true →
  rid ∉ rooms socket →
  currentRoom socket = None →
  (handle env2 (handle env1 st sid (JoinRoom rid)).1 sid (LeaveRoom rid)).1 = st.
Proof.
  intros Hsock Hacc Hout Hcur.
  rewrite (join_room_allowed env1 st sid socket rid) by done. cbn [fst].
  unfold handle, leave_room. cbn [set_socket sockets]. rewrite lookup_insert_eq.
  cbn [set_currentRoom currentRoom]. rewrite bool_decide_eq_true_2 by done. cbn [fst].
  fold (set_socket st sid (set_currentRoom (socket_join socket rid) (Some rid))).
  rewrite set_socket_twice. apply set_socket_same. rewrite Hsock. f_equal.
  apply conn_eq; simpl; [done| |done].
  apply set_eq. intros x. rewrite elem_of_difference, elem_of_union, elem_of_singleton.
  unfold not in Hout. destruct (decide (x = rid)) as [->|Hx]; tauto.
Qed.

Lemma join_then_leave_restores_witness :
  (handle Sample.env
     (handle Sample.env Sample.world (js "s1") (JoinRoom (js "r1"))).1
     (js "s1") (LeaveRoom (js "r1"))).1 = Sample.world.
Proof.
  apply (join_then_leave_restores Sample.env Sample.env Sample.world (js "s1")
           Sample.alice (js "r1")).
  - vm_compute. reflexivity.
  - vm_compute. reflexivity.
  - apply (bool_decide_unpack _). vm_compute. exact I.
  - reflexivity.
Defined.

(** X13. Switching rooms does not leave the first one: after [join-room]
    for [A] and then for another room [B], the socket is joined to both
    channels with [B] active; a [leave-room] for [A] then does nothing,
    so the socket still receives what is emitted on [A]'s channel. *)
Theorem switching_rooms_keeps_first (env1 env2 env3 : Env) (st : State) (sid : Str)
    (socket : Conn) (A B : Str) :
  sockets st !! sid = Some socket →
  canAccessRoom (db st) (su_id (user socket)) A = true →
  canAccessRoom (db st) (su_id (user socket)) B = true →
  A ≠ B →
  let st2 := (handle env2 (handle env1 st sid (JoinRoom A)).1 sid (JoinRoom B)).1 in
  (∃ socket', sockets st2 !! sid = Some socket'
              ∧ rooms socket' = rooms socket ∪ {[A]} ∪ {[B]}
              ∧ currentRoom socket' = Some B)
  ∧ handle env3 st2 sid (LeaveRoom A) = (st2, [])
  ∧ ∀ ev, sid ∈ recipients (sockets st2) (io_to A ev).
Proof.
  intros Hsock HA HB Hne st2. subst st2.
  rewrite (join_room_allowed env1 st sid socket A) by done. cbn [fst].
  rewrite (join_room_allowed env2 _ sid
             (set_currentRoom (socket_join socket A) (Some A)) B);
    [|apply lookup_insert_eq|done].
  cbn [fst]. rewrite set_socket_twice.
  set (socket' := set_currentRoom
                    (socket_join (set_currentRoom (socket_join socket A) (Some A)) B)
                    (Some B)).
  assert (sockets (set_socket st sid socket') !! sid = Some socket') as Hsock'
    by apply lookup_insert_eq.
  split_and!.
  - by exists socket'.
  - unfold handle, leave_room. rewrite Hsock'. cbn [socket' set_currentRoom currentRoom].
    rewrite bool_decide_eq_false_2; [done|]. by intros [= ->].
  - intros ev. simpl recipients. apply elem_of_joined. exists socket'.
    split; [done|]. simpl. apply elem_of_union_l, elem_of_union_r.
    by apply elem_of_singleton.
Qed.

Lemma switching_rooms_keeps_first_witness :
  let st2 := (handle Sample.env
                (handle Sample.env Sample2.world (js "s1") (JoinRoom (js "r1"))).1
                (js "s1") (JoinRoom (js "r2"))).1 in
  handle Sample.env st2 (js "s1") (LeaveRoom (js "r1")) = (st2, [])
  ∧ ∀ ev, js "s1" ∈ recipients (sockets st2) (io_to (js "r1") ev).
Proof.
  destruct (switching_rooms_keeps_first Sample.env Sample.env Sample.env Sample2.world
              (js "s1") Sample.alice (js "r1") (js "r2")) as (_ & H1 & H2).
  - vm_compute. reflexivity.
  - vm_compute. reflexivity.
  - vm_compute. reflexivity.
  - vm_compute. discriminate.
  - split; [exact H1|exact H2].
Defined.

(** X14. A disconnect removes the socket and leaves the store alone.  When
    the socket had an active room, exactly one [user-left] is emitted,
    delivered to exactly the other sockets joined to that room, and
    nothing goes to any other channel the socket had joined; without an
    active room nothing is emitted. *)
Theorem disconnect_notifies_active_room (env : Env) (st : State) (sid : Str)
    (socket : Conn) :
  sockets st !! sid = Some socket →
  let res := handle env st sid Disconnect in
  sockets res.1 !! sid = None
  ∧ db res.1 = db st
  ∧ (∀ r, currentRoom socket = Some r → r ≠ [] →
          res.2 = [socket_to sid r (user_left (user_ref (user socket)) (now env))]
          ∧ ∀ s ev, s ∈ recipients (sockets res.1) (socket_to sid r ev)
                    ↔ s ≠ sid ∧ ∃ other, sockets st !! s = Some other ∧ r ∈ rooms other)
  ∧ (currentRoom socket = None → res.2 = []).
Proof.
  intros Hsock res.
  assert (res = disconnect env st sid socket) as ->.
  { subst res. unfold handle. by rewrite Hsock. }
  unfold disconnect. cbn [fst snd sockets db]. split_and!.
  - apply lookup_delete_eq.
  - done.
  - intros r -> Hr. split; [by destruct r|].
    intros s ev. rewrite elem_of_recipients_socket_to.
    split; intros [Hne (other & Hother & Hin)]; (split; [done|]); exists other.
    + by rewrite lookup_delete_ne in Hother.
    + by rewrite lookup_delete_ne.
  - by intros ->.
Qed.

Lemma disconnect_notifies_active_room_witness :
  let res := handle Sample.env Sample.world (js "s2") Disconnect in
  sockets res.1 !! js "s2" = None
  ∧ res.2 = [socket_to (js "s2") (js "r1")
               (user_left (user_ref (user Sample.bob)) (now Sample.env))].
Proof.
  destruct (disconnect_notifies_active_room Sample.env Sample.world (js "s2")
              Sample.bob) as (H1 & _ & H2 & _).
  - vm_compute. reflexivity.
  - split; [exact H1|].
    apply (H2 (js "r1")); [reflexivity|vm_compute; discriminate].
Defined.

(** ** Direct chats *)

(** X15. [join-chat] is acknowledged exactly when the user has a
    participant row for the chat.  It then attaches the socket to the
    chat's channel, leaves the active room and the store alone, and
    emits only the acknowledgment: no presence event reaches the other
    party.  When refused it changes nothing. *)
Theorem join_chat_iff_participant (env : Env) (st : State) (sid : Str) (socket : Conn)
    (cid : Str) :
  sockets st !! sid = Some socket →
  let res := handle env st sid (JoinChat cid) in
  let ack := socket_emit sid (chat_joined cid (js "Successfully joined chat")) in
  let participant := (cid, su_id (user socket)) ∈ db_chatParticipants (db st) in
  (ack ∈ res.2 ↔ participant)
  ∧ (participant →
       res.2 = [ack]
       ∧ db res.1 = db st
       ∧ ∃ socket', sockets res.1 !! sid = Some socket'
                    ∧ rooms socket' = rooms socket ∪ {[chat_channel cid]}
                    ∧ currentRoom socket' = currentRoom socket)
  ∧ (¬ participant → res.1 = st).
Proof.
  intros Hsock res ack participant. subst res ack participant.
  unfold handle, join_chat, chatParticipant_findUnique. rewrite Hsock.
  case_bool_decide as Hp; cbn [negb fst snd]; split_and!.
  - split; [done|]. intros _. left.
  - intros _. split_and!; [done..|]. eexists. split; [apply lookup_insert_eq|done].
  - done.
  - split; [|done]. intros Hin. apply list_elem_of_singleton in Hin. discriminate.
  - done.
  - done.
Qed.

Lemma join_chat_iff_participant_witness :
  let res := handle Sample.env Sample.world (js "s1") (JoinChat (js "c1")) in
  res.2 = [socket_emit (js "s1") (chat_joined (js "c1") (js "Successfully joined chat"))]
  ∧ db res.1 = db Sample.world.
Proof.
  destruct (join_chat_iff_participant Sample.env Sample.world (js "s1") Sample.alice
              (js "c1")) as (_ & Hyes & _).
  - vm_compute. reflexivity.
  - destruct Hyes as (H1 & H2 & _).
    + apply (bool_decide_unpack _). vm_compute. exact I.
    + split; [exact H1|exact H2].
Defined.

(** X16. [leave-chat] asks nothing and says nothing: it emits no event,
    not even an acknowledgment, and afterwards the socket is not joined
    to the chat's channel.  For a socket that had not joined the chat it
    changes nothing, and after a [join-chat] it restores the state. *)
Theorem leave_chat_is_silent (env : Env) (st : State) (sid : Str) (socket : Conn)
    (cid : Str) :
  sockets st !! sid = Some socket →
  let res := handle env st sid (LeaveChat cid) in
  res.2 = []
  ∧ (sid ∉ joined (sockets res.1) (chat_channel cid))
  ∧ (chat_channel cid ∉ rooms socket →
     res.1 = st
     ∧ ∀ env', (handle env (handle env' st sid (JoinChat cid)).1 sid (LeaveChat cid)).1
               = st).
Proof.
  intros Hsock res.
  assert (res = leave_chat st sid socket cid) as ->.
  { subst res. unfold handle. by rewrite Hsock. }
  unfold leave_chat. cbn [fst snd]. split_and!; [done| |].
  - rewrite elem_of_joined. simpl. rewrite lookup_insert_eq.
    intros (socket' & [= <-] & Hin). simpl in Hin.
    apply elem_of_difference in Hin as [_ Hn]. by apply Hn, elem_of_singleton.
  - intros Hout. unfold not in Hout.
    assert (rooms socket ∖ {[chat_channel cid]} = rooms socket) as Hdiff.
    { apply set_eq. intros y. rewrite elem_of_difference, elem_of_singleton.
      destruct (decide (y = chat_channel cid)) as [->|Hy]; tauto. }
    assert (set_socket st sid (socket_leave socket (chat_channel cid)) = st) as Hsame.
    { apply set_socket_same. rewrite Hsock. f_equal.
      apply conn_eq; simpl; [done| |done]. by rewrite Hdiff. }
    split; [done|].
    intros env'. unfold handle, join_chat, leave_chat. rewrite Hsock.
    destruct (negb _); cbn [fst sockets set_socket].
    + by rewrite Hsock.
    + rewrite lookup_insert_eq. cbn [fst].
      fold (set_socket st sid (socket_join socket (chat_channel cid))).
      rewrite set_socket_twice. apply set_socket_same. rewrite Hsock. f_equal.
      apply conn_eq; simpl; [done| |done].
      apply set_eq. intros y.
      rewrite elem_of_difference, elem_of_union, elem_of_singleton.
      destruct (decide (y = chat_channel cid)) as [->|Hy]; tauto.
Qed.

Lemma leave_chat_is_silent_witness :
  (handle Sample.env (handle Sample.env Sample.world (js "s1") (JoinChat (js "c1"))).1
     (js "s1") (LeaveChat (js "c1"))).1 = Sample.world.
Proof.
  destruct (leave_chat_is_silent Sample.env Sample.world (js "s1") Sample.alice
              (js "c1")) as (_ & _ & H).
  - vm_compute. reflexivity.
  - apply H. apply (bool_decide_unpack _). vm_compute. exact I.
Defined.

(** ** Channels and notifications *)

Lemma chat_channel_not_user_channel (cid uid : Str) : chat_channel cid ≠ user_channel uid.
Proof.
  intros Heq. apply (f_equal head) in Heq. vm_compute in Heq. discriminate.
Qed.

(** Channel names keep chats and users apart: two chats share a
    channel only if they are the same chat, two users share a
    notification channel only if they are the same user, and no chat
    channel is a notification channel. *)
Lemma channels_do_not_collide (a b : Str) :
  (chat_channel a = chat_channel b → a = b)
  ∧ (user_channel a = user_channel b → a = b)
  ∧ chat_channel a ≠ user_channel b.
Proof.
  split_and!.
  - unfold chat_channel. apply app_inv_head.
  - unfold user_channel. apply app_inv_head.
  - apply chat_channel_not_user_channel.
Qed.

(** X17. A socket stays in its user's notification channel: any event
    other than the disconnect and a [leave-room] naming that very channel
    leaves the socket joined to it. *)
Theorem notification_channel_is_kept (env : Env) (st : State) (sid : Str)
    (socket : Conn) (ev : ClientEvent) :
  sockets st !! sid = Some socket →
  let channel := user_channel (su_id (user socket)) in
  channel ∈ rooms socket →
  ev ≠ Disconnect →
  ev ≠ LeaveRoom channel →
  ∃ socket', sockets (handle env st sid ev).1 !! sid = Some socket'
             ∧ channel ∈ rooms socket'.
Proof.
  intros Hsock channel Hin Hd Hl. subst channel.
  handler_cases; rewrite ?lookup_insert_eq; eexists; (split; [done|]); simpl;
    rewrite ?elem_of_union, ?elem_of_difference, ?elem_of_singleton; auto.
  split; [done|]. intros Heq. apply Hl. by rewrite <-Heq.
Qed.

Lemma notification_channel_is_kept_witness :
  ∃ socket', sockets (handle Sample.env Sample.world (js "s2") (LeaveRoom (js "r1"))).1
               !! js "s2" = Some socket'
             ∧ user_channel (js "bob") ∈ rooms socket'.
Proof.
  apply (notification_channel_is_kept Sample.env Sample.world (js "s2") Sample.bob
           (LeaveRoom (js "r1"))).
  - vm_compute. reflexivity.
  - apply (bool_decide_unpack _). vm_compute. exact I.
  - discriminate.
  - vm_compute. discriminate.
Defined.

(** X18. The [connection] handler enrols the socket in its user's
    notification channel, beside the channel of its own id and with no
    active room, so that what is emitted on that channel reaches it; a
    later [join-notifications] only acknowledges and changes nothing. *)
Theorem connection_joins_notifications (env : Env) (st : State) (sid : Str)
    (u : SocketUser) :
  let st1 := connection st sid u in
  sockets st1 !! sid
  = Some {| user := u; rooms := {[sid]} ∪ {[user_channel (su_id u)]};
            currentRoom := None |}
  ∧ (∀ ev, sid ∈ recipients (sockets st1) (io_to (user_channel (su_id u)) ev))
  ∧ handle env st1 sid JoinNotifications
    = (st1, [socket_emit sid
               (notifications_joined (js "Successfully joined notifications"))]).
Proof.
  cbv zeta. unfold connection.
  set (socket := socket_join _ _).
  assert (sockets (set_socket st sid socket) !! sid = Some socket) as Hsock
    by apply lookup_insert_eq.
  split_and!.
  - done.
  - intros ev. simpl recipients. apply elem_of_joined. exists socket. split; [done|].
    simpl. apply elem_of_union_r. by apply elem_of_singleton.
  - unfold handle, join_notifications. rewrite Hsock. f_equal.
    rewrite set_socket_twice. f_equal. apply conn_eq; simpl; [done| |done].
    apply set_eq. intros y. rewrite !elem_of_union. tauto.
Qed.

(** X19. A handshake is accepted exactly when a non-empty token is
    presented, it verifies, and the user it names is in the store.  The
    socket then carries that user's identity, is enrolled in the
    notification channel and has no active room; a refused handshake
    leaves the gateway as it was. *)
Theorem handshake_accepts_known_users (verifyToken : Str → option Str) (st : State)
    (sid : Str) (token : option Str) :
  let res := handshake verifyToken st sid token in
  (res.2 = None
   ↔ ∃ t userId, token = Some t ∧ t ≠ [] ∧ verifyToken t = Some userId
                 ∧ is_Some (db_users (db st) !! userId))
  ∧ (∀ t userId u,
       token = Some t → t ≠ [] → verifyToken t = Some userId →
       db_users (db st) !! userId = Some u →
       sockets res.1 !! sid
       = Some {| user := socket_user userId u;
                 rooms := {[sid]} ∪ {[user_channel userId]};
                 currentRoom := None |})
  ∧ (res.2 ≠ None → res.1 = st).
Proof.
  cbv zeta. unfold handshake, io_use. split_and!.
  - split.
    + destruct token as [t|]; [|done]. destruct t as [|x t]; [done|]. simpl.
      destruct (verifyToken (x :: t)) as [userId|] eqn:Hv; [|done].
      destruct (db_users (db st) !! userId) as [u|] eqn:Hu; [|done].
      intros _. exists (x :: t), userId. by rewrite Hu.
    + intros (t & userId & -> & Ht & Hv & [u Hu]).
      destruct t; [done|]. simpl. by rewrite Hv, Hu.
  - intros t userId u -> Ht Hv Hu. destruct t; [done|]. simpl.
    rewrite Hv, Hu. simpl. apply lookup_insert_eq.
  - destruct token as [t|]; [|done]. destruct t as [|x t]; [done|]. simpl.
    destruct (verifyToken (x :: t)) as [userId|]; [|done].
    by destruct (db_users (db st) !! userId).
Qed.

(** * Further properties of the history route *)

Section history.

Local Instance newer_first_is_total : Total newer_first.
Proof. intros a b. unfold newer_first. lia. Qed.

Local Instance newer_first_is_transitive : Transitive newer_first.
Proof. intros a b c. unfold newer_first. lia. Qed.

(** The rows the query selects, before [take]. *)
Lemma sorted_slice_facts (d : Db) (rid : Str) (lt : option Z) :
  let l := merge_sort newer_first
             (filter (λ m, where_matches rid lt m = true) (map_to_list (db_messages d))) in
  StronglySorted newer_first l
  ∧ NoDup l
  ∧ ∀ m, m ∈ l ↔ db_messages d !! m.1 = Some m.2 ∧ where_matches rid lt m = true.
Proof.
  cbv zeta. split_and!.
  - apply StronglySorted_merge_sort; apply _.
  - rewrite merge_sort_Permutation. apply NoDup_filter, NoDup_map_to_list.
  - intros [id row]. rewrite merge_sort_Permutation, list_elem_of_filter.
    rewrite elem_of_map_to_list. simpl. tauto.
Qed.

Lemma get_room_messages_200 (d : Db) (userId rid : Str) (limit before : QueryValue)
    (ms : list Message) :
  get_room_messages d userId rid limit before = Json200 ms →
  canAccessRoom d userId rid = true
  ∧ ∃ n, parseInt (match limit with
                   | QAbsent => js "50" | QString s => s | QOther => js "50"
                   end) = Some n
         ∧ ms = reverse
                  (prisma_take n
                     (merge_sort newer_first
                        (filter (λ m, where_matches rid
                                        (match before with
                                         | QString b =>
                                             if truthy b then message_findUnique d b
                                             else None
                                         | _ => None
                                         end) m = true)
                           (map_to_list (db_messages d))))).
Proof.
  intros Hres.
  destruct (canAccessRoom d userId rid) eqn:Hacc.
  - split; [done|]. rewrite get_room_messages_allowed in Hres by done.
    unfold message_findMany in Hres.
    destruct (parseInt _) as [n|]; [|done]. exists n. split; [done|].
    by injection Hres as <-.
  - exfalso. unfold get_room_messages in Hres.
    destruct (canAccessRoom_false _ _ _ Hacc) as [Hf|[Hf|(r & p & Hf & Hgate)]];
      rewrite Hf in Hres; try done.
    by rewrite Hgate in Hres.
Qed.

(** X20. The history route hands out messages to the pod only: a [200]
    answer implies that the reader is the owner or a member of the room's
    pod; a room id that names no room is answered [404], and a reader who
    is neither owner nor member [403]. *)
Theorem history_only_for_pod (d : Db) (userId rid : Str) (limit before : QueryValue) :
  (∀ ms, get_room_messages d userId rid limit before = Json200 ms →
         canAccessRoom d userId rid = true)
  ∧ (db_rooms d !! rid = None →
     get_room_messages d userId rid limit before = Json404 (js "Room not found"))
  ∧ (∀ r p, db_rooms d !! rid = Some r → db_pods d !! room_podId r = Some p →
            canAccessRoom d userId rid = false →
            get_room_messages d userId rid limit before
            = Json403 (js "You must be a member of this pod to view messages")).
Proof.
  split_and!.
  - intros ms Hres. by apply get_room_messages_200 in Hres as [? _].
  - intros Hroom. unfold get_room_messages, room_findUnique. by rewrite Hroom.
  - intros r p Hr Hp Hacc. unfold get_room_messages.
    destruct (canAccessRoom_false _ _ _ Hacc) as [Hf|[Hf|(r' & p' & Hf & Hgate)]].
    + unfold room_findUnique in Hf. by rewrite Hr, Hp in Hf.
    + unfold room_findUnique in Hf. by rewrite Hr, Hp in Hf.
    + by rewrite Hf, Hgate.
Qed.

(** X21. Whatever the store holds, a page answered for a limit [n >= 0]
    has at most [n] messages, without repetition, all of them stored
    messages of the requested room, in non-decreasing order of creation
    time. *)
Theorem history_page_is_ordered_slice (d : Db) (userId rid s : Str)
    (before : QueryValue) (n : Z) (ms : list Message) :
  get_room_messages d userId rid (QString s) before = Json200 ms →
  parseInt s = Some n →
  0 ≤ n →
  (length ms ≤ Z.to_nat n)%nat
  ∧ NoDup ms
  ∧ (∀ m, m ∈ ms → db_messages d !! m.1 = Some m.2 ∧ roomId m.2 = Some rid)
  ∧ Sorted (λ a b, createdAt a.2 ≤ createdAt b.2) ms.
Proof.
  intros (_ & n' & Hn' & ->)%get_room_messages_200 Hn Hpos.
  assert (n' = n) as -> by congruence. clear Hn'.
  unfold prisma_take. destruct (Z.leb_spec 0 n); [|lia].
  match goal with
  | |- context [merge_sort newer_first (filter (λ m, where_matches rid ?lt m = true) _)] =>
      destruct (sorted_slice_facts d rid lt) as (Hsorted & Hnodup & Hmem)
  end.
  cbv zeta in *. split_and!.
  - rewrite length_reverse, length_take. lia.
  - rewrite reverse_Permutation. eapply sublist_NoDup; [exact Hnodup|]. apply sublist_take.
  - intros m Hm. rewrite elem_of_reverse in Hm.
    apply (subseteq_take _ _ m), Hmem in Hm as [Hstored Hw].
    split; [done|]. unfold where_matches in Hw.
    apply andb_true_iff in Hw as [Hr _]. by apply bool_decide_eq_true in Hr.
  - apply (Sorted_reverse newer_first).
    apply StronglySorted_Sorted.
    rewrite <-(take_drop (Z.to_nat n)) in Hsorted.
    by apply StronglySorted_app_1_l in Hsorted.
Qed.

Lemma history_page_is_ordered_slice_witness :
  (length [Sample.m8; Sample.m9; Sample.m10] ≤ Z.to_nat 3)%nat
  ∧ NoDup [Sample.m8; Sample.m9; Sample.m10].
Proof.
  destruct (history_page_is_ordered_slice Sample.store (js "bob") (js "r1") (js "3")
              QAbsent 3 [Sample.m8; Sample.m9; Sample.m10]) as (H1 & H2 & _).
  - vm_compute. reflexivity.
  - vm_compute. reflexivity.
  - lia.
  - split; [exact H1|exact H2].
Defined.

(** X22. With a cursor, every message of the page is strictly older than
    the cursor message, whichever room or chat the cursor message belongs
    to: the cursor itself, and any message stamped with its creation time,
    is never on the page. *)
Theorem history_page_is_older_than_cursor (d : Db) (userId rid b : Str)
    (limit : QueryValue) (cursor : MessageRow) (ms : list Message) :
  get_room_messages d userId rid limit (QString b) = Json200 ms →
  b ≠ [] →
  db_messages d !! b = Some cursor →
  ∀ m, m ∈ ms → createdAt m.2 < createdAt cursor.
Proof.
  intros (_ & n & _ & ->)%get_room_messages_200 Hb Hcursor m Hm.
  assert (truthy b = true) as Htr by (by destruct b).
  rewrite Htr in Hm. unfold message_findUnique in Hm. rewrite Hcursor in Hm.
  cbn [fmap option_fmap option_map] in Hm.
  destruct (sorted_slice_facts d rid (Some (createdAt cursor))) as (_ & _ & Hmem).
  cbv zeta in Hmem.
  assert (m ∈ merge_sort newer_first
                (filter (λ m, where_matches rid (Some (createdAt cursor)) m = true)
                   (map_to_list (db_messages d)))) as Hin.
  { rewrite elem_of_reverse in Hm. unfold prisma_take in Hm.
    destruct (0 <=? n).
    - by apply (subseteq_take _ _ m) in Hm.
    - by apply (subseteq_drop _ _ m) in Hm. }
  apply Hmem in Hin as [_ Hw]. unfold where_matches in Hw.
  apply andb_true_iff in Hw as [_ Hlt]. by apply bool_decide_eq_true in Hlt.
Qed.

Lemma history_page_is_older_than_cursor_witness :
  createdAt Sample.m5.2 < createdAt Sample.m8.2.
Proof.
  apply (history_page_is_older_than_cursor Sample.store (js "bob") (js "r1") (js "m08")
           (QString (js "3")) Sample.m8.2 [Sample.m5; Sample.m6; Sample.m7]).
  - vm_compute. reflexivity.
  - vm_compute. discriminate.
  - vm_compute. reflexivity.
  - left.
Defined.
End history.

Section paging.

Local Instance older_is_transitive : Transitive older.
Proof. intros a b c. unfold older. lia. Qed.

Local Instance newer_first_total' : Total newer_first.
Proof. intros a b. unfold newer_first. lia. Qed.

Local Instance newer_first_transitive' : Transitive newer_first.
Proof. intros a b c. unfold newer_first. lia. Qed.

Lemma Sorted_older_take (ms : list Message) (k : nat) :
  Sorted older ms → Sorted older (take k ms).
Proof.
  intros Hs%Sorted_StronglySorted; [|apply _].
  apply StronglySorted_Sorted. rewrite <-(take_drop k ms) in Hs.
  by apply StronglySorted_app_1_l in Hs.
Qed.

(** X23. Paging in general: in a room whose messages [ms] have strictly
    increasing creation times, a request for [n] messages, [n] below
    2^31, without a cursor is answered with the last [n] of [ms], and
    with the id of the message at index [k] as cursor with the last [n]
    of the first [k]; so a page and the page before its oldest message
    are adjacent stretches of [ms], with no message skipped or repeated. *)
Theorem history_pages_tile (d : Db) (userId rid s : Str) (ms : list Message) (n : nat) :
  canAccessRoom d userId rid = true →
  room_messages d rid ≡ₚ ms →
  Sorted older ms →
  parseInt s = Some (Z.of_nat n) →
  Z.of_nat n < 2147483648 →
  get_room_messages d userId rid (QString s) QAbsent
  = Json200 (drop (length ms - n) ms)
  ∧ ∀ k mk, ms !! k = Some mk → mk.1 ≠ [] →
            get_room_messages d userId rid (QString s) (QString mk.1)
            = Json200 (drop (k - n) (take k ms)).
Proof.
  intros Hacc Hp Hs Hn _. split.
  - rewrite get_room_messages_allowed by done. cbv beta iota. rewrite Hn.
    pose proof (page_of_slice d rid None ms n ltac:(by rewrite where_room) Hs) as ->.
    by rewrite reverse_involutive.
  - intros k mk Hk Hid.
    rewrite get_room_messages_allowed by done. cbv beta iota. rewrite Hn.
    assert (truthy mk.1 = true) as -> by (by destruct mk.1).
    assert (mk ∈ room_messages d rid) as Hin.
    { rewrite Hp. by apply list_elem_of_lookup_2 in Hk. }
    unfold message_findUnique. rewrite (room_messages_lookup _ _ _ Hin).
    cbn [fmap option_fmap option_map].
    assert (filter (λ m, where_matches rid (Some (createdAt mk.2)) m = true)
              (map_to_list (db_messages d)) ≡ₚ take k ms) as Hq.
    { rewrite where_room_lt, Hp. by rewrite (filter_older_take _ k mk Hs). }
    pose proof (page_of_slice d rid _ _ n Hq (Sorted_older_take ms k Hs)) as ->.
    rewrite reverse_involutive, length_take_le; [done|].
    apply lookup_lt_Some in Hk. lia.
Qed.

Lemma history_pages_tile_witness :
  get_room_messages Sample.store (js "bob") (js "r1") (QString (js "4")) QAbsent
  = Json200 [Sample.m7; Sample.m8; Sample.m9; Sample.m10]
  ∧ get_room_messages Sample.store (js "bob") (js "r1") (QString (js "4"))
      (QString (js "m07"))
    = Json200 [Sample.m3; Sample.m4; Sample.m5; Sample.m6].
Proof.
  destruct (history_pages_tile Sample.store (js "bob") (js "r1") (js "4")
              [Sample.m1; Sample.m2; Sample.m3; Sample.m4; Sample.m5;
               Sample.m6; Sample.m7; Sample.m8; Sample.m9; Sample.m10] 4)
    as [Hnewest Hbefore].
  - vm_compute. reflexivity.
  - apply (bool_decide_unpack _). vm_compute. exact I.
  - apply (bool_decide_unpack _). vm_compute. exact I.
  - vm_compute. reflexivity.
  - vm_compute. reflexivity.
  - split; [exact Hnewest|].
    apply (Hbefore 6%nat Sample.m7); [reflexivity|vm_compute; discriminate].
Defined.

(** X24. Edges of the query string, for a reader of the pod: a [limit]
    that is no number (such as the empty string) is answered [500]; a
    [limit] of [0] with the empty page; an absent or non-string [limit]
    counts as [50]; and a [before] that is empty or no string is ignored. *)
Theorem history_query_edges (d : Db) (userId rid : Str) :
  canAccessRoom d userId rid = true →
  (∀ s before, parseInt s = None →
               get_room_messages d userId rid (QString s) before
               = Json500 (js "Failed to fetch messages"))
  ∧ (∀ before, get_room_messages d userId rid (QString (js "0")) before = Json200 [])
  ∧ (∀ before, get_room_messages d userId rid QAbsent before
               = get_room_messages d userId rid (QString (js "50")) before
               ∧ get_room_messages d userId rid QOther before
                 = get_room_messages d userId rid (QString (js "50")) before)
  ∧ (∀ limit, get_room_messages d userId rid limit (QString [])
              = get_room_messages d userId rid limit QAbsent
              ∧ get_room_messages d userId rid limit QOther
                = get_room_messages d userId rid limit QAbsent).
Proof.
  intros Hacc. split_and!.
  - intros s before Hs. rewrite get_room_messages_allowed by done.
    cbv beta iota. by rewrite Hs.
  - intros before. rewrite get_room_messages_allowed by done. cbv beta iota.
    change (parseInt (js "0")) with (Some 0). unfold message_findMany, prisma_take.
    simpl. by rewrite take_0.
  - intros before. by rewrite !(get_room_messages_allowed d userId rid _ before).
  - intros limit. by rewrite !(get_room_messages_allowed d userId rid limit).
Qed.

Lemma history_query_edges_witness :
  get_room_messages Sample.store (js "bob") (js "r1") (QString (js "")) QAbsent
  = Json500 (js "Failed to fetch messages")
  ∧ get_room_messages Sample.store (js "bob") (js "r1") (QString (js "0")) QAbsent
    = Json200 [].
Proof.
  destruct (history_query_edges Sample.store (js "bob") (js "r1")) as (H1 & H2 & _).
  - vm_compute. reflexivity.
  - split; [apply H1; vm_compute; reflexivity|apply H2].
Defined.
End paging.

(** * The gateway and the routes together *)

(** X25. The socket and the history route apply one access rule: for a
    [limit] that is a number from 0 to below 2^31, [join-room] is
    acknowledged for a socket's user exactly when the history route
    answers that user with a page. *)
Theorem join_room_agrees_with_history (env : Env) (st : State) (sid : Str) (socket : Conn)
    (rid s : Str) (n : Z) (before : QueryValue) :
  sockets st !! sid = Some socket →
  parseInt s = Some n →
  0 ≤ n < 2147483648 →
  socket_emit sid (room_joined rid (js "Successfully joined room"))
    ∈ (handle env st sid (JoinRoom rid)).2
  ↔ ∃ ms, get_room_messages (db st) (su_id (user socket)) rid (QString s) before
          = Json200 ms.
Proof.
  intros Hsock Hn _.
  destruct (canAccessRoom (db st) (su_id (user socket)) rid) eqn:Hacc.
  - rewrite (join_room_allowed env st sid socket rid) by done.
    rewrite get_room_messages_allowed by done. cbv beta iota. rewrite Hn.
    split; [intros _; by eexists|]. intros _. right. left.
  - split.
    + unfold handle, join_room. rewrite Hsock.
      destruct (canAccessRoom_false _ _ _ Hacc) as [Hf|[Hf|(r & p & Hf & Hgate)]];
        rewrite Hf, ?Hgate; intros Hin%list_elem_of_singleton; discriminate.
    + intros [ms Hres]. unfold get_room_messages in Hres.
      destruct (canAccessRoom_false _ _ _ Hacc) as [Hf|[Hf|(r & p & Hf & Hgate)]];
        rewrite Hf, ?Hgate in Hres; discriminate.
Qed.

Lemma join_room_agrees_with_history_witness :
  socket_emit (js "s2") (room_joined (js "r1") (js "Successfully joined room"))
    ∈ (handle Sample.env Sample.world (js "s2") (JoinRoom (js "r1"))).2
  ↔ ∃ ms, get_room_messages (db Sample.world) (su_id (user Sample.bob)) (js "r1")
            (QString (js "3")) QAbsent = Json200 ms.
Proof.
  apply (join_room_agrees_with_history Sample.env Sample.world (js "s2") Sample.bob
           (js "r1") (js "3") 3).
  - vm_compute. reflexivity.
  - vm_compute. reflexivity.
  - lia.
Defined.

Section sent_then_read.

Local Instance newer_first_total_sr : Total newer_first.
Proof. intros a b. unfold newer_first. lia. Qed.

Local Instance newer_first_transitive_sr : Transitive newer_first.
Proof. intros a b c. unfold newer_first. lia. Qed.

Lemma room_messages_insert (d : Db) (rid id : Str) (row : MessageRow) :
  db_messages d !! id = None → roomId row = Some rid →
  room_messages (insert_message d id row) rid ≡ₚ (id, row) :: room_messages d rid.
Proof.
  intros Hfresh Hroom. unfold room_messages, insert_message. cbn [db_messages].
  rewrite map_to_list_insert by done. by rewrite filter_cons_True.
Qed.

Lemma canAccessRoom_insert_message (d : Db) (uid rid id : Str) (row : MessageRow) :
  canAccessRoom (insert_message d id row) uid rid = canAccessRoom d uid rid.
Proof. done. Qed.

(** The newest-first ordering of a slice starts with a row that is
    strictly newer than all the others. *)
Lemma newest_is_first (l rest : list Message) (m : Message) :
  l ≡ₚ m :: rest →
  (∀ x, x ∈ rest → createdAt x.2 < createdAt m.2) →
  head (merge_sort newer_first l) = Some m.
Proof.
  intros Hp Hnew.
  pose proof (StronglySorted_merge_sort newer_first l) as Hs.
  assert (merge_sort newer_first l ≡ₚ m :: rest) as Hq.
  { etrans; [apply merge_sort_Permutation|done]. }
  destruct (merge_sort newer_first l) as [|h t].
  { by apply Permutation_nil_cons in Hq. }
  simpl. f_equal.
  apply StronglySorted_cons in Hs as [Hall _]. rewrite Forall_forall in Hall.
  assert (h ∈ m :: rest) as Hh by (rewrite <-Hq; left).
  assert (m ∈ h :: t) as Hm by (rewrite Hq; left).
  apply elem_of_cons in Hh as [->|Hh]; [done|].
  apply elem_of_cons in Hm as [->|Hm]; [done|].
  specialize (Hall _ Hm). specialize (Hnew _ Hh). unfold newer_first in Hall. lia.
Qed.

(** X26. What is sent over the socket is what the history shows: after a
    [send-message] that goes through, stamped later than every message of
    the room, the room has one message more, and the newest page of the
    history route, for a limit from 1 to below 2^31, ends with the
    message sent. *)
Theorem sent_message_is_newest_in_history (env : Env) (st : State) (sid : Str)
    (socket : Conn) (rid c s : Str) (n : Z) :
  sockets st !! sid = Some socket →
  ¬ whitespace_only c →
  canAccessRoom (db st) (su_id (user socket)) rid = true →
  is_Some (db_users (db st) !! su_id (user socket)) →
  db_messages (db st) !! fresh_id env = None →
  (∀ m, m ∈ room_messages (db st) rid → createdAt m.2 < now env) →
  parseInt s = Some n →
  0 < n < 2147483648 →
  let d' := db (handle env st sid (SendMessage rid c)).1 in
  let sent := (fresh_id env,
               {| content := trim c; roomId := Some rid; chatId := None;
                  senderId := su_id (user socket); createdAt := now env |}) in
  length (room_messages d' rid) = S (length (room_messages (db st) rid))
  ∧ ∃ ms, get_room_messages d' (su_id (user socket)) rid (QString s) QAbsent
          = Json200 ms
          ∧ last ms = Some sent.
Proof.
  intros Hsock Hc%content_present_spec Hacc [u Hu] Hfresh Hnewer Hn Hpos d' sent.
  subst d' sent. rewrite (send_message_ok env st sid socket rid c u) by done.
  cbn [fst set_db db].
  set (row := {| content := trim c; roomId := Some rid; chatId := None;
                 senderId := su_id (user socket); createdAt := now env |}).
  pose proof (room_messages_insert (db st) rid (fresh_id env) row Hfresh eq_refl)
    as Hp.
  split.
  - by rewrite Hp.
  - rewrite get_room_messages_allowed by done. cbv beta iota. rewrite Hn.
    unfold message_findMany. eexists. split; [done|].
    rewrite last_reverse, where_room. unfold prisma_take.
    destruct (Z.leb_spec 0 n); [|lia].
    pose proof (newest_is_first _ _ (fresh_id env, row) Hp Hnewer) as Hhead.
    destruct (merge_sort newer_first _) as [|h t]; [done|].
    destruct (Z.to_nat n) eqn:Hz; [lia|]. done.
Qed.

Lemma sent_message_is_newest_in_history_witness :
  ∃ ms, get_room_messages
          (db (handle Sample.env Sample.world (js "s2")
                 (SendMessage (js "r1") (js "hello"))).1)
          (js "bob") (js "r1") (QString (js "2")) QAbsent = Json200 ms
        ∧ last ms = Some (js "m11",
                          {| content := js "hello"; roomId := Some (js "r1");
                             chatId := None; senderId := js "bob"; createdAt := 11 |}).
Proof.
  destruct (sent_message_is_newest_in_history Sample.env Sample.world (js "s2")
              Sample.bob (js "r1") (js "hello") (js "2") 2) as [_ Hpage].
  - vm_compute. reflexivity.
  - apply (bool_decide_unpack _). vm_compute. exact I.
  - vm_compute. reflexivity.
  - apply (bool_decide_unpack _). vm_compute. exact I.
  - vm_compute. reflexivity.
  - apply Forall_forall. apply (bool_decide_unpack _). vm_compute. exact I.
  - vm_compute. reflexivity.
  - lia.
  - exact Hpage.
Defined.
End sent_then_read.

(** * Authentication and cross-origin policy *)

Lemma startsWith_spec (s prefix : Str) :
  startsWith s prefix = true ↔ s = prefix ++ substring s (length prefix).
Proof.
  unfold startsWith, substring. rewrite bool_decide_eq_true. split.
  - intros Htake.
    transitivity (take (length prefix) s ++ drop (length prefix) s);
      [by rewrite take_drop|by f_equal].
  - intros Hs. rewrite Hs at 1. by rewrite take_app_length.
Qed.

Lemma authMiddleware_next (verifyToken : Str → option Str) (d : Db)
    (authHeader : option Str) (u : AuthenticatedUser) :
  authMiddleware verifyToken d authHeader = next u →
  ∃ t row, authHeader = Some (js "Bearer " ++ t)
           ∧ verifyToken t = Some (au_id u)
           ∧ db_users d !! au_id u = Some row
           ∧ u = {| au_id := au_id u; au_email := user_email row;
                    au_username := user_username row; au_role := user_role row;
                    au_fullName := user_fullName row;
                    au_profilePhoto := user_profilePhoto row |}.
Proof.
  unfold authMiddleware. destruct authHeader as [h|]; [|done].
  destruct (truthy h); [|done]. cbn [negb orb].
  destruct (startsWith h (js "Bearer ")) eqn:Hprefix; [|done]. cbn [negb].
  apply startsWith_spec in Hprefix.
  destruct (verifyToken (substring h 7)) as [userId|] eqn:Hv; [|done].
  destruct (db_users d !! userId) as [row|] eqn:Hrow; [|done].
  intros [= <-]. exists (substring h 7), row. by rewrite Hprefix at 1.
Qed.

(** X27. [authMiddleware] lets a request through only when its
    [Authorization] header is [Bearer ] followed by a token that verifies
    to a user of the store; [req.user] is then that user's row.  A
    missing header, and a header with another scheme or spelling, is
    answered [401] before the token is looked at. *)
Theorem authMiddleware_needs_bearer_token (verifyToken : Str → option Str) (d : Db)
    (authHeader : option Str) :
  (∀ u, authMiddleware verifyToken d authHeader = next u →
        ∃ t row, authHeader = Some (js "Bearer " ++ t)
                 ∧ verifyToken t = Some (au_id u)
                 ∧ db_users d !! au_id u = Some row
                 ∧ au_username u = user_username row
                 ∧ au_role u = user_role row)
  ∧ (∀ t userId row,
       authHeader = Some (js "Bearer " ++ t) → verifyToken t = Some userId →
       db_users d !! userId = Some row →
       ∃ u, authMiddleware verifyToken d authHeader = next u ∧ au_id u = userId)
  ∧ ((∀ h, authHeader = Some h → startsWith h (js "Bearer ") = false) →
     authMiddleware verifyToken d authHeader = status_json 401 (js "No token provided")).
Proof.
  split_and!.
  - intros u (t & row & -> & Hv & Hrow & Hu)%authMiddleware_next.
    exists t, row. split_and!; [done..| |]; by rewrite Hu.
  - intros t userId row -> Hv Hrow. unfold authMiddleware.
    change (truthy (js "Bearer " ++ t)) with true.
    assert (startsWith (js "Bearer " ++ t) (js "Bearer ") = true) as ->.
    { by apply startsWith_spec. }
    change (substring (js "Bearer " ++ t) 7) with t. simpl. rewrite Hv, Hrow.
    by eexists.
  - intros Hscheme. unfold authMiddleware. destruct authHeader as [h|]; [|done].
    rewrite (Hscheme h eq_refl). by rewrite orb_true_r.
Qed.

(** X28. The history route as a whole: messages are answered only to a
    request whose [Authorization] header is [Bearer ] followed by a token
    that verifies to a stored user who owns the room's pod or is a member
    of it, and they are messages of the requested room. *)
Theorem history_route_needs_identity (verifyToken : Str → option Str) (d : Db)
    (authHeader : option Str) (rid : Str) (limit before : QueryValue)
    (ms : list Message) :
  get_room_messages_route verifyToken d authHeader rid limit before
  = Answered (Json200 ms) →
  (∃ t userId, authHeader = Some (js "Bearer " ++ t)
               ∧ verifyToken t = Some userId
               ∧ is_Some (db_users d !! userId)
               ∧ canAccessRoom d userId rid = true)
  ∧ ∀ m, m ∈ ms → db_messages d !! m.1 = Some m.2 ∧ roomId m.2 = Some rid.
Proof.
  unfold get_room_messages_route. intros Hres.
  destruct (authMiddleware verifyToken d authHeader) as [u|] eqn:Hauth; [|done].
  apply authMiddleware_next in Hauth as (t & row & -> & Hv & Hrow & _).
  injection Hres as Hres.
  apply get_room_messages_200 in Hres as (Hacc & n & _ & ->). split.
  - exists t, (au_id u). by rewrite Hrow.
  - intros m Hm. rewrite elem_of_reverse in Hm.
    match type of Hm with
    | context [filter (λ m, where_matches rid ?lt m = true) _] =>
        destruct (sorted_slice_facts d rid lt) as (_ & _ & Hmem)
    end.
    cbv zeta in Hmem.
    assert (db_messages d !! m.1 = Some m.2 ∧ where_matches rid
              (match before with
               | QString b => if truthy b then message_findUnique d b else None
               | _ => None
               end) m = true) as [Hstored Hw].
    { apply Hmem. unfold prisma_take in Hm. destruct (0 <=? n).
      - by apply (subseteq_take _ _ m) in Hm.
      - by apply (subseteq_drop _ _ m) in Hm. }
    split; [done|]. unfold where_matches in Hw.
    apply andb_true_iff in Hw as [Hr _]. by apply bool_decide_eq_true in Hr.
Qed.

Lemma history_route_needs_identity_witness :
  (∃ t userId, Some (js "Bearer bob-token") = Some (js "Bearer " ++ t)
               ∧ Sample2.verify t = Some userId
               ∧ is_Some (db_users Sample.store !! userId)
               ∧ canAccessRoom Sample.store userId (js "r1") = true)
  ∧ ∀ m, m ∈ [Sample.m8; Sample.m9; Sample.m10] →
         db_messages Sample.store !! m.1 = Some m.2 ∧ roomId m.2 = Some (js "r1").
Proof.
  apply (history_route_needs_identity Sample2.verify Sample.store
           (Some (js "Bearer bob-token")) (js "r1") (QString (js "3")) QAbsent).
  vm_compute. reflexivity.
Defined.

Lemma cors_server_in_socket (o : Str) :
  o ∈ server_allowedOrigins → o ∈ socket_allowedOrigins.
Proof.
  unfold server_allowedOrigins. intros Hin.
  repeat (apply elem_of_cons in Hin as [->|Hin];
          [apply (bool_decide_unpack _); by vm_compute|]).
  by apply elem_of_nil in Hin.
Qed.

(** X29. The two cross-origin policies: every origin the Express
    application allows is allowed by the Socket.IO server too; a request
    without an origin passes both; and a refusal names the origin, which
    is then a non-empty string outside the list. *)
Theorem cors_policies (origin : option Str) :
  (cors_origin server_allowedOrigins origin = None →
   cors_origin socket_allowedOrigins origin = None)
  ∧ cors_origin server_allowedOrigins None = None
  ∧ cors_origin socket_allowedOrigins None = None
  ∧ ∀ allowed message,
      cors_origin allowed origin = Some message →
      ∃ o, origin = Some o ∧ o ≠ [] ∧ (o ∉ allowed)
           ∧ message = js "Not allowed by CORS: " ++ o.
Proof.
  split_and!; [|done..|].
  - unfold cors_origin. destruct origin as [o|]; [|done].
    destruct (negb (truthy o)); [done|].
    case_bool_decide as Hin; [|done]. intros _.
    by rewrite bool_decide_eq_true_2 by (by apply cors_server_in_socket).
  - intros allowed message. unfold cors_origin. destruct origin as [o|]; [|done].
    destruct o as [|x o]; [done|]. simpl.
    case_bool_decide as Hin; [done|]. intros [= <-]. by exists (x :: o).
Qed.

(** * Why a socket is in a channel *)

(** X30. A gateway event puts a socket into a channel only for a reason
    that holds in the store at that moment: every channel a socket is
    joined to after an event was joined before it, or was added by that
    socket's own [join-room] after the pod access check, by its
    [join-chat] with a participant row, or by its [join-notifications]
    for its user's channel.  (Nothing re-checks a channel later.) *)
Theorem channel_joined_for_a_reason (env : Env) (st : State) (sid : Str)
    (ev : ClientEvent) (s : Str) (socket' : Conn) (channel : Str) :
  sockets (handle env st sid ev).1 !! s = Some socket' →
  channel ∈ rooms socket' →
  let uid := su_id (user socket') in
  (∃ socket, sockets st !! s = Some socket ∧ channel ∈ rooms socket)
  ∨ (s = sid
     ∧ ((ev = JoinRoom channel ∧ canAccessRoom (db st) uid channel = true)
        ∨ (∃ cid, ev = JoinChat cid ∧ channel = chat_channel cid
                  ∧ canAccessChat (db st) uid cid = true)
        ∨ (ev = JoinNotifications ∧ channel = user_channel uid))).
Proof.
  intros Hlook Hin uid. subst uid.
  destruct (sockets st !! sid) as [socket|] eqn:Hsock.
  2:{ unfold handle in Hlook. rewrite Hsock in Hlook. left. eauto. }
  destruct (decide (s = sid)) as [->|Hne].
  2:{ left. exists socket'. split; [|done]. revert Hlook. clear -Hne.
      intros Hlook. handler_cases;
        rewrite ?lookup_insert_ne, ?lookup_delete_ne in Hlook by done; done. }
  unfold handle in Hlook. rewrite Hsock in Hlook.
  assert (sockets st !! sid = Some socket' →
          ∃ socket0, sockets st !! sid = Some socket0 ∧ channel ∈ rooms socket0) as Hold
    by eauto.
  destruct ev; simpl in Hlook.
  - unfold join_room in Hlook.
    destruct (room_findUnique (db st) rid) as [[[r p]|]|] eqn:Hfind;
      try (left; by apply Hold).
    destruct (_ && _) eqn:Hgate; [left; by apply Hold|].
    simpl in Hlook. rewrite lookup_insert_eq in Hlook. simplify_eq/=.
    apply elem_of_union in Hin as [Hin|Heq]; [left; eauto|].
    apply elem_of_singleton in Heq as ->. right. split; [done|]. left. split; [done|].
    destruct (canAccessRoom (db st) (su_id (user socket)) rid) eqn:Hacc; [done|].
    destruct (canAccessRoom_false _ _ _ Hacc) as [Hf|[Hf|(r' & p' & Hf & Hg)]];
      rewrite Hf in Hfind; simplify_eq. by rewrite Hg in Hgate.
  - unfold leave_room in Hlook. case_bool_decide; simpl in Hlook.
    + rewrite lookup_insert_eq in Hlook. simplify_eq/=.
      apply elem_of_difference in Hin as [Hin _]. left. eauto.
    + left. by apply Hold.
  - assert (sockets (send_message env st sid socket rid c).1 = sockets st) as Hsame.
    { unfold send_message. repeat case_match; done. }
    rewrite Hsame in Hlook. left. by apply Hold.
  - unfold typing_start in Hlook. left.
    case_bool_decide; simpl in Hlook; by apply Hold.
  - unfold typing_stop in Hlook. left.
    case_bool_decide; simpl in Hlook; by apply Hold.
  - unfold join_chat in Hlook.
    destruct (chatParticipant_findUnique (db st) cid (su_id (user socket))) eqn:Hpart;
      simpl in Hlook; [|left; by apply Hold].
    rewrite lookup_insert_eq in Hlook. simplify_eq/=.
    apply elem_of_union in Hin as [Hin|Heq]; [left; eauto|].
    apply elem_of_singleton in Heq as ->. right. split; [done|]. right. left.
    by exists cid.
  - unfold leave_chat in Hlook. simpl in Hlook. rewrite lookup_insert_eq in Hlook.
    simplify_eq/=. apply elem_of_difference in Hin as [Hin _]. left. eauto.
  - assert (sockets (send_dm env st sid socket cid c).1 = sockets st) as Hsame.
    { unfold send_dm. repeat case_match; done. }
    rewrite Hsame in Hlook. left. by apply Hold.
  - left. by apply Hold.
  - left. by apply Hold.
  - unfold join_notifications in Hlook. simpl in Hlook.
    rewrite lookup_insert_eq in Hlook. simplify_eq/=.
    apply elem_of_union in Hin as [Hin|Heq]; [left; eauto|].
    apply elem_of_singleton in Heq as ->. right. split; [done|]. right. by right.
  - unfold disconnect in Hlook. simpl in Hlook. by rewrite lookup_delete_eq in Hlook.
Qed.

Lemma channel_joined_for_a_reason_witness :
  (∃ socket, sockets Sample.world !! js "s1" = Some socket ∧ js "r1" ∈ rooms socket)
  ∨ (js "s1" = js "s1"
     ∧ ((JoinRoom (js "r1") = JoinRoom (js "r1")
         ∧ canAccessRoom (db Sample.world) (js "alice") (js "r1") = true)
        ∨ (∃ cid, JoinRoom (js "r1") = JoinChat cid ∧ js "r1" = chat_channel cid
                  ∧ canAccessChat (db Sample.world) (js "alice") cid = true)
        ∨ (JoinRoom (js "r1") = JoinNotifications
           ∧ js "r1" = user_channel (js "alice")))).
Proof.
  apply (channel_joined_for_a_reason Sample.env Sample.world (js "s1")
           (JoinRoom (js "r1")) (js "s1")
           (set_currentRoom (socket_join Sample.alice (js "r1")) (Some (js "r1")))
           (js "r1")).
  - vm_compute. reflexivity.
  - apply (bool_decide_unpack _). vm_compute. exact I.
Defined.
